(** * FPL Live Table: live scoring, bonus allocation and auto-substitution

    A shallow embedding of the scoring engine of the [FPLLiveTable] class
    (the application script that carries [calculateLocalAutoSubs]):

    - [calculateProvisionalBonus]  provisional bonus from BPS, per fixture
    - [calculateLocalAutoSubs]     local automatic substitutions
    - [calculateLiveInfo]          live points, played count, captain
    - [calculateScores]            gameweek and monthly totals
    - [sortScores]                 leaderboard order

    JavaScript numbers that the engine reads are integers and are modelled
    by [Z]; a [Map] keyed by a number is a [gmap Z _], a [Set] of numbers a
    [gset Z]; an absent ([undefined]/[null]) object is [None]. *)

From Stdlib Require Import ZArith List Bool Lia Permutation Sorted.
From stdpp Require Import base gmap strings list.

Open Scope Z_scope.

(** ** Data model (the shapes the upstream API delivers) *)

Module Player.
(** An entry of [bootstrap.elements]; [element_type] is 1=GK, 2=DEF,
    3=MID, 4=FWD. *)
Record t := mk { id : Z; team : Z; element_type : Z; web_name : string }.
End Player.

Module Fixture.
Record t := mk {
  event : Z;
  team_h : Z;
  team_a : Z;
  started : bool;
  finished : bool;
  finished_provisional : bool
}.
End Fixture.

Module Stats.
Record t := mk { minutes : Z; total_points : Z; bonus : Z; bps : Z }.
End Stats.

Module LiveElement.
(** An entry of [liveData.elements]; [stats] may be missing. *)
Record t := mk { id : Z; stats : option Stats.t }.
End LiveElement.

Module Pick.
Record t := mk {
  element : Z;
  multiplier : Z;
  is_captain : bool;
  is_vice_captain : bool
}.
End Pick.

Module AutoSub.
Record t := mk { element_in : Z; element_out : Z; entry : Z; event : Z }.
End AutoSub.

Module Picks.
(** The answer of [/entry/{id}/event/{gw}/picks/]. *)
Record t := mk {
  picks : option (list Pick.t);
  active_chip : option string;
  automatic_subs : option (list AutoSub.t);
  entry : Z
}.
End Picks.

Module HistoryEntry.
(** An entry of [history.current]. *)
Record t := mk { event : Z; points : Z }.
End HistoryEntry.

Module Manager.
(** An entry of [standings.standings.results]; [total] is the career
    total. *)
Record t := mk { entry : Z; total : Z; player_name : string; entry_name : string }.
End Manager.

Module ManagerData.
(** What [fetchManagerData] stores per manager; [history] stands for
    [data.history?.current]. *)
Record t := mk {
  history : option (list HistoryEntry.t);
  picks : option Picks.t
}.
End ManagerData.

(** The fields of [this] that the engine reads. [monthGameweeks] is the
    array [getGameweeksForMonth(this.currentMonth)] returns; it is computed
    from kick-off dates and is taken as given. *)
Record App := mkApp {
  players : option (gmap Z Player.t);
  fixtures : option (list Fixture.t);
  liveData : option (list LiveElement.t);   (* [this.liveData?.elements] *)
  currentGameweek : Z;
  currentView : string;
  standings : option (list Manager.t);      (* [this.standings?.standings?.results] *)
  managerData : gmap Z ManagerData.t;
  monthGameweeks : list Z
}.

(** A call on a missing object ([this.players.get] when [this.players] is
    not set) throws a [TypeError]. *)
Inductive result (A : Type) : Type :=
  | Ok (a : A)
  | TypeError.
Arguments Ok {A} a.
Arguments TypeError {A}.

#[global] Instance result_bind : MBind result := fun A B k r =>
  match r with Ok a => k a | TypeError => TypeError end.

(** [forEach] / [map] with a body that may throw. *)
Fixpoint forEachM {A S} (f : S -> A -> result S) (l : list A) (s : S) : result S :=
  match l with
  | [] => Ok s
  | x :: l' => s' ← f s x; forEachM f l' s'
  end.

Fixpoint mapResult {A B} (f : A -> result B) (l : list A) : result (list B) :=
  match l with
  | [] => Ok []
  | x :: l' => y ← f x; ys ← mapResult f l'; Ok (y :: ys)
  end.

(** ** JavaScript helpers *)

(** [Array.prototype.find]. *)
Definition js_find {A} (f : A -> bool) (l : list A) : option A := List.find f l.

(** [Array.prototype.sort] with a comparator: the sort is stable; [x] goes
    before [y] when [cmp x y <= 0] and [x] was before [y]. *)
Fixpoint sort_insert {A} (cmp : A -> A -> Z) (x : A) (l : list A) : list A :=
  match l with
  | [] => [x]
  | y :: l' => if cmp x y <=? 0 then x :: l else y :: sort_insert cmp x l'
  end.

Fixpoint js_sort {A} (cmp : A -> A -> Z) (l : list A) : list A :=
  match l with
  | [] => []
  | x :: l' => sort_insert cmp x (js_sort cmp l')
  end.

(** [liveElement?.stats?.F || 0] and [liveElement?.stats?.minutes > 0]. *)
Definition stat (F : Stats.t -> Z) (e : option LiveElement.t) : Z :=
  match e with
  | Some e => match LiveElement.stats e with Some s => F s | None => 0 end
  | None => 0
  end.

Definition findElement (els : list LiveElement.t) (i : Z) : option LiveElement.t :=
  js_find (fun e => LiveElement.id e =? i) els.

(** [this.fixtures.find(f => f.event === this.currentGameweek &&
      (f.team_h === team || f.team_a === team))]. *)
Definition teamFixture (gw : Z) (fs : list Fixture.t) (team : Z) : option Fixture.t :=
  js_find (fun f => (Fixture.event f =? gw) &&
                    ((Fixture.team_h f =? team) || (Fixture.team_a f =? team))) fs.

(** ** calculateProvisionalBonus *)

Module BpsEntry.
(** The objects pushed on [playersInFixture]. *)
Record t := mk { id : Z; bps : Z; name : string }.
End BpsEntry.

(** The players of one fixture who have played, in [liveData] order. *)
Definition playersInFixture (ps : gmap Z Player.t) (els : list LiveElement.t)
    (fixture : Fixture.t) : list BpsEntry.t :=
  flat_map (fun element =>
    match ps !! LiveElement.id element with
    | Some player =>
        if ((Player.team player =? Fixture.team_h fixture) ||
            (Player.team player =? Fixture.team_a fixture)) &&
           (0 <? stat Stats.minutes (Some element))
        then [BpsEntry.mk (LiveElement.id element)
                          (stat Stats.bps (Some element))
                          (Player.web_name player)]
        else []
    | None => []
    end) els.

Definition bpsDescending (a b : BpsEntry.t) : Z := BpsEntry.bps b - BpsEntry.bps a.

(** The inner [while]: the players at the front tied at [currentBps], and
    the rest of the array. *)
Fixpoint takeTied (currentBps : Z) (l : list BpsEntry.t)
    : list BpsEntry.t * list BpsEntry.t :=
  match l with
  | p :: l' =>
      if BpsEntry.bps p =? currentBps
      then let '(tied, rest) := takeTied currentBps l' in (p :: tied, rest)
      else ([], l)
  | [] => ([], [])
  end.

Definition setBonus (bonus : Z) (bonusMap : gmap Z Z) (tied : list BpsEntry.t)
    : gmap Z Z :=
  fold_left (fun m p => <[BpsEntry.id p := bonus]> m) tied bonusMap.

(** The outer [while (i < playersInFixture.length && position <= 3)]; [l]
    is the part of the sorted array from index [i] on. Every turn consumes
    at least one player, so [length l] turns are enough ([awardBonus]). *)
Fixpoint awardLoop (fuel : nat) (position : Z) (l : list BpsEntry.t)
    (bonusMap : gmap Z Z) : gmap Z Z :=
  match fuel with
  | O => bonusMap
  | S fuel' =>
      match l with
      | [] => bonusMap
      | p :: _ =>
          if position <=? 3 then
            let '(tiedPlayers, rest) := takeTied (BpsEntry.bps p) l in
            let bonus := 4 - position in
            awardLoop fuel' (position + Z.of_nat (length tiedPlayers)) rest
                      (setBonus bonus bonusMap tiedPlayers)
          else bonusMap
      end
  end.

(** [if (playersInFixture.length > 0) { let position = 1; let i = 0; while
    ... }]: on an empty array the loop has nothing to do. *)
Definition awardBonus (sorted : list BpsEntry.t) (bonusMap : gmap Z Z) : gmap Z Z :=
  awardLoop (length sorted) 1 sorted bonusMap.

Definition gwFixtures (app : App) (fs : list Fixture.t) : list Fixture.t :=
  List.filter (fun f => (Fixture.event f =? currentGameweek app) && Fixture.started f) fs.

Definition calculateProvisionalBonus (app : App) : gmap Z Z :=
  match fixtures app, liveData app, players app with
  | Some fs, Some els, Some ps =>
      fold_left (fun bonusMap fixture =>
                   awardBonus (js_sort bpsDescending (playersInFixture ps els fixture))
                              bonusMap)
                (gwFixtures app fs) ∅
  | _, _, _ => ∅
  end.

(** ** calculateLocalAutoSubs *)

(** [formationCount[k] < n] and [formationCount[k] > n]: a comparison with a
    missing key is false in JavaScript. *)
Definition countLt (formationCount : gmap Z Z) (k n : Z) : bool :=
  match formationCount !! k with Some c => c <? n | None => false end.

Definition countGt (formationCount : gmap Z Z) (k n : Z) : bool :=
  match formationCount !! k with Some c => n <? c | None => false end.

(** [formationCount[k] = (formationCount[k] || 0) + 1]. *)
Definition countIncr (formationCount : gmap Z Z) (k : Z) : gmap Z Z :=
  <[k := default 0 (formationCount !! k) + 1]> formationCount.

Definition initialFormation : gmap Z Z := {[1 := 0; 2 := 0; 3 := 0; 4 := 0]}.

(** [playerFixture?.finished || playerFixture?.finished_provisional]. *)
Definition fixtureFinished (f : option Fixture.t) : bool :=
  match f with
  | Some f => Fixture.finished f || Fixture.finished_provisional f
  | None => false
  end.

Definition fixtureStarted (f : option Fixture.t) : bool :=
  match f with Some f => Fixture.started f | None => false end.

(** The first pass over the starting eleven: count, per position, the
    starters who do not need a substitute. *)
Definition countFormation (gw : Z) (ps : gmap Z Player.t) (fs : list Fixture.t)
    (els : list LiveElement.t) (starting : list Pick.t) : gmap Z Z :=
  fold_left (fun formationCount pick =>
    let player := ps !! Pick.element pick in
    let minutes := stat Stats.minutes (findElement els (Pick.element pick)) in
    let playerFixture :=
      match player with Some pl => teamFixture gw fs (Player.team pl) | None => None end in
    let needsSub := (minutes =? 0) && fixtureFinished playerFixture in
    match player with
    | Some pl => if negb needsSub then countIncr formationCount (Player.element_type pl)
                 else formationCount
    | None => formationCount
    end) starting initialFormation.

(** The body of the bench loop for one [benchPick]: [Some benchPlayer] when
    the loop reaches "Valid sub found!", [None] for every [continue]. *)
Definition validReplacement (gw : Z) (ps : gmap Z Player.t) (fs : list Fixture.t)
    (usedBenchPlayers : gset Z) (formationCount : gmap Z Z)
    (player : Player.t) (benchPick : Pick.t) : option Player.t :=
  if decide (Pick.element benchPick ∈ usedBenchPlayers) then None else
  match ps !! Pick.element benchPick with
  | None => None
  | Some benchPlayer =>
      let benchFixture := teamFixture gw fs (Player.team benchPlayer) in
      if negb (fixtureStarted benchFixture) then None else
      let isStartingGK := Player.element_type player =? 1 in
      let isBenchGK := Player.element_type benchPlayer =? 1 in
      if isStartingGK && negb isBenchGK then None else
      if negb isStartingGK && isBenchGK then None else
      if negb isStartingGK &&
         (let newFormation := countIncr formationCount (Player.element_type benchPlayer) in
          (countLt formationCount 2 3 && negb (Player.element_type benchPlayer =? 2))
          || countGt newFormation 3 5
          || countGt newFormation 4 3)
      then None
      else Some benchPlayer
  end.

(** [for (let i = 0; i < bench.length; i++)] up to its [break]. *)
Fixpoint findReplacement (gw : Z) (ps : gmap Z Player.t) (fs : list Fixture.t)
    (usedBenchPlayers : gset Z) (formationCount : gmap Z Z)
    (player : Player.t) (bench : list Pick.t) : option (Pick.t * Player.t) :=
  match bench with
  | [] => None
  | benchPick :: bench' =>
      match validReplacement gw ps fs usedBenchPlayers formationCount player benchPick with
      | Some benchPlayer => Some (benchPick, benchPlayer)
      | None => findReplacement gw ps fs usedBenchPlayers formationCount player bench'
      end
  end.

(** What the second pass carries from one starter to the next. *)
Record SubState := mkSubState {
  autoSubs : list AutoSub.t;
  usedBenchPlayers : gset Z;
  formationCount : gmap Z Z
}.

(** One turn of [for (const pick of starting)]. *)
Definition substituteStarter (gw : Z) (ps : gmap Z Player.t) (fs : list Fixture.t)
    (els : list LiveElement.t) (entry : Z) (bench : list Pick.t)
    (st : SubState) (pick : Pick.t) : SubState :=
  match ps !! Pick.element pick with
  | None => st
  | Some player =>
      let minutes := stat Stats.minutes (findElement els (Pick.element pick)) in
      let playerFixture := teamFixture gw fs (Player.team player) in
      if (0 <? minutes) || negb (fixtureFinished playerFixture) then st else
      match findReplacement gw ps fs (usedBenchPlayers st) (formationCount st) player bench with
      | None => st
      | Some (benchPick, benchPlayer) =>
          {| autoSubs := autoSubs st ++
               [AutoSub.mk (Pick.element benchPick) (Pick.element pick) entry gw];
             usedBenchPlayers := usedBenchPlayers st ∪ {[Pick.element benchPick]};
             formationCount := countIncr (formationCount st) (Player.element_type benchPlayer) |}
      end
  end.

(** The local resolution proper (everything below the two early returns). *)
Definition localAutoSubs (gw : Z) (ps : gmap Z Player.t) (fs : list Fixture.t)
    (els : list LiveElement.t) (entry : Z) (allPicks : list Pick.t) : list AutoSub.t :=
  let starting := firstn 11 allPicks in
  let bench := skipn 11 allPicks in
  autoSubs (fold_left (substituteStarter gw ps fs els entry bench) starting
              {| autoSubs := [];
                 usedBenchPlayers := ∅;
                 formationCount := countFormation gw ps fs els starting |}).

Definition calculateLocalAutoSubs (app : App) (picks : option Picks.t) : list AutoSub.t :=
  match picks with
  | None => []
  | Some picks =>
      match Picks.picks picks, liveData app, fixtures app, players app with
      | Some allPicks, Some els, Some fs, Some ps =>
          match Picks.automatic_subs picks with
          | Some (sub :: subs) => sub :: subs
          | _ => localAutoSubs (currentGameweek app) ps fs els (Picks.entry picks) allPicks
          end
      | _, _, _, _ => []
      end
  end.

(** ** calculateLiveInfo *)

Module LiveInfo.
(** The early return of [calculateLiveInfo] carries no [maxPlayers]. *)
Record t := mk {
  played : Z;
  maxPlayers : option Z;
  captainName : option string;
  captainPlayed : bool;
  bonusPoints : Z;
  activeChip : option string;
  livePoints : Z
}.
End LiveInfo.

Module ActivePick.
(** [{ ...pick, isActive, wasSubbedIn, wasSubbedOut }]. *)
Record t := mk {
  pick : Pick.t;
  isActive : bool;
  wasSubbedIn : bool;
  wasSubbedOut : bool
}.
End ActivePick.

Definition isBenchBoost (activeChip : option string) : bool :=
  match activeChip with Some c => String.eqb c "bboost" | None => false end.

Definition activePicks (benchBoost : bool) (subs : list AutoSub.t)
    (allPicks : list Pick.t) : list ActivePick.t :=
  let subbedOut : gset Z := list_to_set (map AutoSub.element_out subs) in
  let subbedIn : gset Z := list_to_set (map AutoSub.element_in subs) in
  imap (fun index pick =>
    let isStarting := (index <? 11)%nat in
    let wasSubbedOut := bool_decide (Pick.element pick ∈ subbedOut) in
    let wasSubbedIn := bool_decide (Pick.element pick ∈ subbedIn) in
    let isActive := (isStarting && negb wasSubbedOut) || wasSubbedIn ||
                    (benchBoost && (11 <=? index)%nat) in
    ActivePick.mk pick isActive wasSubbedIn wasSubbedOut) allPicks.

(** The four counters the scoring [forEach] updates. *)
Record Tally := mkTally {
  t_played : Z;
  t_captainName : option string;
  t_captainPlayed : bool;
  t_livePoints : Z
}.

(** [player?.web_name || 'Unknown']. *)
Definition nameOrUnknown (player : option Player.t) : string :=
  match player with
  | Some pl => if String.eqb (Player.web_name pl) EmptyString then "Unknown"
               else Player.web_name pl
  | None => "Unknown"
  end.

(** The points one pick brings before the multiplier: the base points, plus
    the provisional bonus when this player's own official bonus is 0. *)
Definition pickPoints (els : list LiveElement.t) (provisionalBonus : gmap Z Z)
    (element : Z) : Z :=
  let liveElement := findElement els element in
  let basePoints := stat Stats.total_points liveElement in
  let apiBonus := stat Stats.bonus liveElement in
  let calcBonus := default 0 (provisionalBonus !! element) in
  let bonusToAdd := if 0 <? apiBonus then 0 else calcBonus in
  basePoints + bonusToAdd.

Definition tallyPick (app : App) (els : list LiveElement.t)
    (provisionalBonus : gmap Z Z) (acc : Tally) (ap : ActivePick.t) : result Tally :=
  if negb (ActivePick.isActive ap) then Ok acc else
  let pick := ActivePick.pick ap in
  let liveElement := findElement els (Pick.element pick) in
  let hasPlayed := 0 <? stat Stats.minutes liveElement in
  let points := pickPoints els provisionalBonus (Pick.element pick) in
  let acc :=
    if hasPlayed
    then {| t_played := t_played acc + 1;
            t_captainName := t_captainName acc;
            t_captainPlayed := t_captainPlayed acc;
            t_livePoints := t_livePoints acc + points * Pick.multiplier pick |}
    else acc in
  if Pick.is_captain pick then
    match players app with
    | Some ps =>
        Ok {| t_played := t_played acc;
              t_captainName := Some (nameOrUnknown (ps !! Pick.element pick));
              t_captainPlayed := hasPlayed;
              t_livePoints := t_livePoints acc |}
    | None => TypeError
    end
  else Ok acc.

Definition calculateLiveInfo (app : App) (picks : option Picks.t) : result LiveInfo.t :=
  let early := Ok (LiveInfo.mk 0 None None false 0 None 0) in
  match picks with
  | None => early
  | Some picks =>
      match Picks.picks picks, liveData app with
      | Some allPicks, Some els =>
          let provisionalBonus := calculateProvisionalBonus app in
          let activeChip := Picks.active_chip picks in
          let benchBoost := isBenchBoost activeChip in
          let subs := calculateLocalAutoSubs app (Some picks) in
          tally ← forEachM (tallyPick app els provisionalBonus)
                        (activePicks benchBoost subs allPicks)
                        (mkTally 0 None false 0);
          let maxPlayers := if benchBoost then 15 else 11 in
          Ok (LiveInfo.mk (t_played tally) (Some maxPlayers) (t_captainName tally)
                          (t_captainPlayed tally) 0 activeChip (t_livePoints tally))
      | _, _ => early
      end
  end.

(** ** calculateScores *)

Module Score.
(** [{ ...manager, gameweekPoints, monthlyPoints, ... }]. *)
Record t := mk {
  manager : Manager.t;
  gameweekPoints : Z;
  monthlyPoints : Z;
  previousMonthlyPoints : Z;
  playedPlayers : Z;
  maxPlayers : Z;
  captain : option string;
  captainPlayed : bool;
  activeChip : option string;
  livePoints : Z;
  picks : option Picks.t
}.
End Score.

(** [array.includes(x)] on numbers. *)
Definition includes (l : list Z) (x : Z) : bool := existsb (Z.eqb x) l.

(** The [forEach] over [data.history.current]. *)
Definition monthlyPointsBeforeCurrentGW (app : App)
    (history : option (list HistoryEntry.t)) : Z :=
  match history with
  | Some current =>
      fold_left (fun acc h =>
                   if includes (monthGameweeks app) (HistoryEntry.event h) &&
                      negb (HistoryEntry.event h =? currentGameweek app)
                   then acc + HistoryEntry.points h else acc)
                current 0
  | None => 0
  end.

(** The body of the [map] in [calculateScores]. *)
Definition managerScore (app : App) (manager : Manager.t) : result Score.t :=
  match managerData app !! Manager.entry manager with
  | None => Ok (Score.mk manager 0 0 0 0 11 None false None 0 None)
  | Some data =>
      liveInfo ← calculateLiveInfo app (ManagerData.picks data);
      let gameweekPoints := LiveInfo.livePoints liveInfo in
      let before := monthlyPointsBeforeCurrentGW app (ManagerData.history data) in
      let monthlyPoints :=
        if includes (monthGameweeks app) (currentGameweek app)
        then before + gameweekPoints else before in
      Ok (Score.mk manager gameweekPoints monthlyPoints before
                   (LiveInfo.played liveInfo)
                   (match LiveInfo.maxPlayers liveInfo with
                    | Some n => if n =? 0 then 11 else n
                    | None => 11
                    end)
                   (LiveInfo.captainName liveInfo)
                   (LiveInfo.captainPlayed liveInfo)
                   (LiveInfo.activeChip liveInfo)
                   (LiveInfo.livePoints liveInfo)
                   (ManagerData.picks data))
  end.

Definition calculateScores (app : App) : result (list Score.t) :=
  match standings app with
  | None => Ok []
  | Some results => mapResult (managerScore app) results
  end.

(** ** sortScores *)

Definition sortField (app : App) : Score.t -> Z :=
  if String.eqb (currentView app) "monthly" then Score.monthlyPoints
  else Score.gameweekPoints.

(** The comparator handed to [sort]. *)
Definition compareScores (field : Score.t -> Z) (a b : Score.t) : Z :=
  if negb (field b =? field a) then field b - field a
  else if negb (Score.gameweekPoints b =? Score.gameweekPoints a)
       then Score.gameweekPoints b - Score.gameweekPoints a
       else Manager.total (Score.manager b) - Manager.total (Score.manager a).

Definition sortScores (app : App) (scores : list Score.t) : list Score.t :=
  js_sort (compareScores (sortField app)) scores.

(** ** Concrete snapshots

    Gameweek 22 with four fixtures: teams 1-2 and 7-8 have finished, 3-4 is
    in play, 5-6 has not kicked off. *)

Module Sample.

(** [new Map(bootstrap.elements.map(p => [p.id, p]))]: a later entry with
    the same id replaces an earlier one. *)
Definition playersMap (l : list Player.t) : gmap Z Player.t :=
  fold_left (fun m p => <[Player.id p := p]> m) l ∅.

Definition gw22 : list Fixture.t :=
  [ Fixture.mk 22 1 2 true true true;
    Fixture.mk 22 3 4 true false false;
    Fixture.mk 22 5 6 false false false;
    Fixture.mk 22 7 8 true true true ].

Definition GK := 1.
Definition DEF := 2.
Definition MID := 3.
Definition FWD := 4.

Definition played (id points : Z) : LiveElement.t :=
  LiveElement.mk id (Some (Stats.mk 90 points 0 0)).
Definition unused (id : Z) : LiveElement.t :=
  LiveElement.mk id (Some (Stats.mk 0 0 0 0)).

Definition slot (id : Z) : Pick.t := Pick.mk id 1 false false.

Definition mkWorld (ps : list Player.t) (els : list LiveElement.t) : App :=
  {| players := Some (playersMap ps);
     fixtures := Some gw22;
     liveData := Some els;
     currentGameweek := 22;
     currentView := "monthly";
     standings := None;
     managerData := ∅;
     monthGameweeks := [21; 22] |}.

(** *** A 4-4-2 whose midfielder 6 sat out a finished match

    Bench: goalkeeper 12, midfielder 13, forward 14 (played), defender
    15. The team of 13 is left open. *)
Definition squad442 (team13 : Z) : list Player.t :=
  [ Player.mk 1 1 GK "Raya";
    Player.mk 2 1 DEF "Saliba"; Player.mk 3 1 DEF "Gabriel";
    Player.mk 4 1 DEF "Timber"; Player.mk 5 1 DEF "White";
    Player.mk 6 2 MID "Bruno"; Player.mk 7 1 MID "Saka";
    Player.mk 8 1 MID "Rice"; Player.mk 9 1 MID "Odegaard";
    Player.mk 10 1 FWD "Havertz"; Player.mk 11 1 FWD "Jesus";
    Player.mk 12 2 GK "Onana"; Player.mk 13 team13 MID "Palmer";
    Player.mk 14 1 FWD "Nketiah"; Player.mk 15 2 DEF "Dalot" ].

Definition live442 : list LiveElement.t :=
  [ played 1 2; played 2 6; played 3 6; played 4 2; played 5 1;
    unused 6; played 7 9; played 8 3; played 9 5; played 10 2;
    played 11 8; played 12 3; unused 13; played 14 5; played 15 1 ].

Definition roster (chip : option string) (subs : option (list AutoSub.t)) : Picks.t :=
  Picks.mk (Some (map slot [1; 2; 3; 4; 5; 6; 7; 8; 9; 10; 11; 12; 13; 14; 15]))
           chip subs 1001.

(** Bench midfielder 13 plays for team 5, whose match has not started. *)
Definition worldWaiting : App := mkWorld (squad442 5) live442.

(** Bench midfielder 13 plays for team 7: match finished, 0 minutes. *)
Definition worldBenchUnused : App := mkWorld (squad442 7) live442.

(** *** A 5-4-1 whose only forward 10 sat out a finished match

    Bench: goalkeeper 12, midfielder 13 (played), forward 14 (played),
    defender 15. *)
Definition squad541 : list Player.t :=
  [ Player.mk 1 1 GK "Raya";
    Player.mk 2 1 DEF "Saliba"; Player.mk 3 1 DEF "Gabriel";
    Player.mk 4 1 DEF "Timber"; Player.mk 5 1 DEF "White";
    Player.mk 11 1 DEF "Calafiori";
    Player.mk 6 1 MID "Merino"; Player.mk 7 1 MID "Saka";
    Player.mk 8 1 MID "Rice"; Player.mk 9 1 MID "Odegaard";
    Player.mk 10 2 FWD "Hojlund";
    Player.mk 12 2 GK "Onana"; Player.mk 13 7 MID "Palmer";
    Player.mk 14 1 FWD "Nketiah"; Player.mk 15 2 DEF "Dalot" ].

Definition live541 : list LiveElement.t :=
  [ played 1 2; played 2 6; played 3 6; played 4 2; played 5 1;
    played 6 2; played 7 9; played 8 3; played 9 5; unused 10;
    played 11 6; played 12 3; played 13 7; played 14 5; played 15 1 ].

Definition worldLoneForward : App := mkWorld squad541 live541.

(** *** Bonus

    The six players of the allocation example, BPS 10, 10, 8, 8, 8, 5. *)
Definition bps6 : list BpsEntry.t :=
  [ BpsEntry.mk 1 10 "A"; BpsEntry.mk 2 10 "B"; BpsEntry.mk 3 8 "C";
    BpsEntry.mk 4 8 "D"; BpsEntry.mk 5 8 "E"; BpsEntry.mk 6 5 "F" ].

(** Fixture 1-2: player 2 has its official bonus (3, already inside its 9
    points); player 7 leads the BPS ranking and its official bonus is
    still 0. *)
Definition liveMixedBonus : list LiveElement.t :=
  [ LiveElement.mk 2 (Some (Stats.mk 90 9 3 20));
    LiveElement.mk 7 (Some (Stats.mk 90 6 0 35)) ].

Definition worldMixedBonus : App := mkWorld (squad442 5) liveMixedBonus.

Definition rosterMixedBonus : Picks.t :=
  Picks.mk (Some [slot 2; slot 7]) None None 1001.

(** *** Month total: history {21: 50}, current gameweek 22, live total 63
    (60 points and a provisional bonus of 3) *)
Definition liveSolo : list LiveElement.t :=
  [ LiveElement.mk 7 (Some (Stats.mk 90 60 0 25)) ].

Definition rosterSolo : Picks.t := Picks.mk (Some [slot 7]) None None 1001.

Definition worldMonth : App :=
  {| players := Some (playersMap (squad442 5));
     fixtures := Some gw22;
     liveData := Some liveSolo;
     currentGameweek := 22;
     currentView := "monthly";
     standings := Some [Manager.mk 1001 1200 "Ann" "Ann FC"];
     managerData :=
       {[ 1001 := ManagerData.mk (Some [HistoryEntry.mk 21 50]) (Some rosterSolo) ]};
     monthGameweeks := [21; 22] |}.

End Sample.

(** ** Specification-side notions *)

(** The order the leaderboard is to show: higher primary field first, then
    higher gameweek points, then higher career total. *)
Definition primaryField (app : App) (s : Score.t) : Z :=
  if decide (currentView app = "monthly") then Score.monthlyPoints s
  else Score.gameweekPoints s.

Definition rankedBefore (app : App) (a b : Score.t) : Prop :=
  primaryField app b < primaryField app a ∨
  (primaryField app b = primaryField app a ∧
   (Score.gameweekPoints b < Score.gameweekPoints a ∨
    (Score.gameweekPoints b = Score.gameweekPoints a ∧
     Manager.total (Score.manager b) <= Manager.total (Score.manager a)))).

(** The three sort keys of a manager. *)
Definition rankKey (app : App) (s : Score.t) : Z * Z * Z :=
  (primaryField app s, Score.gameweekPoints s, Manager.total (Score.manager s)).

Definition sameKey (app : App) (k : Z * Z * Z) (s : Score.t) : bool :=
  bool_decide (rankKey app s = k).

(** Competition rank by BPS within [l]: one more than the number of players
    with a strictly higher BPS. *)
Definition bpsRank (l : list BpsEntry.t) (p : BpsEntry.t) : Z :=
  1 + Z.of_nat (length (List.filter (fun q => BpsEntry.bps p <? BpsEntry.bps q) l)).

(** Descending by BPS. *)
Definition bpsGe (a b : BpsEntry.t) : Prop := BpsEntry.bps b <= BpsEntry.bps a.

(** Player [i] has a live element with minutes > 0 and plays for a side of
    a started fixture of the current gameweek. *)
Definition eligibleForBonus (app : App) (i : Z) : Prop :=
  ∃ ps els fs element player fixture,
    players app = Some ps ∧ liveData app = Some els ∧ fixtures app = Some fs ∧
    In element els ∧ LiveElement.id element = i ∧
    0 < stat Stats.minutes (Some element) ∧
    ps !! i = Some player ∧
    In fixture fs ∧ Fixture.event fixture = currentGameweek app ∧
    Fixture.started fixture = true ∧
    (Player.team player = Fixture.team_h fixture ∨
     Player.team player = Fixture.team_a fixture).

(** Every entry of [m] satisfies [P]. *)
Definition holdsOnly (P : Z -> Z -> Prop) (m : gmap Z Z) : Prop :=
  ∀ i b, m !! i = Some b -> P i b.

(** A confirmed local substitution, as the loops establish it. *)
Definition localSub (gw : Z) (ps : gmap Z Player.t) (fs : list Fixture.t)
    (els : list LiveElement.t) (allPicks : list Pick.t) (sub : AutoSub.t) : Prop :=
  ∃ pick benchPick player benchPlayer,
    In pick (firstn 11 allPicks) ∧ In benchPick (skipn 11 allPicks) ∧
    AutoSub.element_out sub = Pick.element pick ∧
    AutoSub.element_in sub = Pick.element benchPick ∧
    ps !! Pick.element pick = Some player ∧
    ps !! Pick.element benchPick = Some benchPlayer ∧
    stat Stats.minutes (findElement els (Pick.element pick)) <= 0 ∧
    fixtureFinished (teamFixture gw fs (Player.team player)) = true ∧
    fixtureStarted (teamFixture gw fs (Player.team benchPlayer)) = true ∧
    (Player.element_type player =? 1) = (Player.element_type benchPlayer =? 1).

(** A sequence of [bonusMap.set(id, bonus)] calls. *)
Definition applyWrites (bonusMap : gmap Z Z) (writes : list (Z * Z)) : gmap Z Z :=
  fold_left (fun m w => <[w.1 := w.2]> m) writes bonusMap.

(** Sum of the confirmed points of the period's gameweeks other than the
    current one. *)
Definition historicalPoints (period : list Z) (current : Z)
    (history : list HistoryEntry.t) : Z :=
  foldr Z.add 0
    (map HistoryEntry.points
       (List.filter (fun h => includes period (HistoryEntry.event h) &&
                              negb (HistoryEntry.event h =? current)) history)).

(** ** Further functions of the application *)

(** The state in which the second pass of [calculateLocalAutoSubs] ends;
    [localAutoSubs] is its [autoSubs]. *)
Definition resolveLocally (gw : Z) (ps : gmap Z Player.t) (fs : list Fixture.t)
    (els : list LiveElement.t) (entry : Z) (allPicks : list Pick.t) : SubState :=
  fold_left (substituteStarter gw ps fs els entry (skipn 11 allPicks))
            (firstn 11 allPicks)
            {| autoSubs := [];
               usedBenchPlayers := ∅;
               formationCount := countFormation gw ps fs els (firstn 11 allPicks) |}.

(** The bench players brought in so far are exactly the used ones, and none
    is brought in twice. *)
Definition benchLedger (st : SubState) : Prop :=
  NoDup (map AutoSub.element_in (autoSubs st)) ∧
  ∀ i, In i (map AutoSub.element_in (autoSubs st)) -> i ∈ usedBenchPlayers st.

(** The formation maxima the bench loop checks: at most 5 midfielders and
    at most 3 forwards counted. *)
Definition withinMaxima (formationCount : gmap Z Z) : Prop :=
  countGt formationCount 3 5 = false ∧ countGt formationCount 4 3 = false.

(** The provisional bonus of player [p] in the allocation for the players
    [l] of one fixture, 0 when [p] has no entry. *)
Definition fixtureBonus (l : list BpsEntry.t) (p : BpsEntry.t) : Z :=
  default 0 (awardBonus (js_sort bpsDescending l) ∅ !! BpsEntry.id p).

(** *** calculatePositionChanges *)

Module Ranked.
(** [{ ...manager, currentPosition, previousPosition, positionChange }]; a
    position read from a map that lacks the key is [undefined], and a
    difference with [undefined] is not a number: both are [None]. *)
Record t := mk {
  score : Score.t;
  currentPosition : option Z;
  previousPosition : option Z;
  positionChange : option Z
}.
End Ranked.

(** The comparator of [previousSorted]. *)
Definition comparePrevious (a b : Score.t) : Z :=
  if negb (Score.previousMonthlyPoints b =? Score.previousMonthlyPoints a)
  then Score.previousMonthlyPoints b - Score.previousMonthlyPoints a
  else Manager.total (Score.manager b) - Manager.total (Score.manager a).

(** [sorted.forEach((m, idx) => positions.set(m.entry, idx + 1))], from
    index [idx] on. *)
Fixpoint setPositions (idx : Z) (sorted : list Score.t) (positions : gmap Z Z)
    : gmap Z Z :=
  match sorted with
  | [] => positions
  | m :: rest =>
      setPositions (idx + 1) rest
        (<[Manager.entry (Score.manager m) := idx + 1]> positions)
  end.

Definition positionsOf (sorted : list Score.t) : gmap Z Z := setPositions 0 sorted ∅.

(** [previousPos - currentPos]. *)
Definition minus (a b : option Z) : option Z :=
  match a, b with
  | Some a, Some b => Some (a - b)
  | _, _ => None
  end.

Definition calculatePositionChanges (scores : list Score.t) : list Ranked.t :=
  let currentSorted := js_sort (compareScores Score.monthlyPoints) scores in
  let previousSorted := js_sort comparePrevious scores in
  let currentPositions := positionsOf currentSorted in
  let previousPositions := positionsOf previousSorted in
  map (fun manager =>
         let currentPos := currentPositions !! Manager.entry (Score.manager manager) in
         let previousPos := previousPositions !! Manager.entry (Score.manager manager) in
         Ranked.mk manager currentPos previousPos (minus previousPos currentPos))
      scores.



(** The positions [idx + 1], ..., [idx + n]. *)
Fixpoint positionsFrom (idx : Z) (n : nat) : list Z :=
  match n with
  | O => []
  | S n => (idx + 1) :: positionsFrom (idx + 1) n
  end.

Definition entryOf (s : Score.t) : Z := Manager.entry (Score.manager s).

(** The movement shown for a row, 0 when it is not a number. *)
Definition movement (r : Ranked.t) : Z := default 0 (Ranked.positionChange r).

Definition sumZ (l : list Z) : Z := foldr Z.add 0 l.

Module League.
(** A league of three: entry, career total, gameweek points, monthly
    points, monthly points before the current gameweek. *)
Definition row (entry career gw monthly before : Z) : Score.t :=
  Score.mk (Manager.mk entry career "" "") gw monthly before 0 11 None false None gw None.

Definition table : list Score.t :=
  [ row 1 1000 40 90 50; row 2 1100 60 100 40; row 3 900 40 90 50 ].
End League.

(** *** The scoring loop in closed form *)

(** [liveElement?.stats?.minutes > 0] for the element of a pick. *)
Definition hasPlayed (els : list LiveElement.t) (element : Z) : bool :=
  0 <? stat Stats.minutes (findElement els element).

(** The picks the scoring [forEach] adds up: active, with minutes. *)
Definition countsAndPlayed (els : list LiveElement.t) (ap : ActivePick.t) : bool :=
  ActivePick.isActive ap && hasPlayed els (Pick.element (ActivePick.pick ap)).

(** A substitution list that pairs distinct starters with distinct bench
    picks. *)
Definition properSubs (allPicks : list Pick.t) (subs : list AutoSub.t) : Prop :=
  List.NoDup (map AutoSub.element_in subs) ∧
  List.NoDup (map AutoSub.element_out subs) ∧
  incl (map AutoSub.element_in subs) (map Pick.element (skipn 11 allPicks)) ∧
  incl (map AutoSub.element_out subs) (map Pick.element (firstn 11 allPicks)).

(** How a starter and a bench pick are flagged by [activePicks]. *)
Definition flagStarter (subs : list AutoSub.t) (pick : Pick.t) : ActivePick.t :=
  let wasSubbedOut :=
    bool_decide (Pick.element pick ∈ (list_to_set (map AutoSub.element_out subs) : gset Z)) in
  let wasSubbedIn :=
    bool_decide (Pick.element pick ∈ (list_to_set (map AutoSub.element_in subs) : gset Z)) in
  ActivePick.mk pick (negb wasSubbedOut || wasSubbedIn) wasSubbedIn wasSubbedOut.

Definition flagBench (benchBoost : bool) (subs : list AutoSub.t) (pick : Pick.t)
    : ActivePick.t :=
  let wasSubbedOut :=
    bool_decide (Pick.element pick ∈ (list_to_set (map AutoSub.element_out subs) : gset Z)) in
  let wasSubbedIn :=
    bool_decide (Pick.element pick ∈ (list_to_set (map AutoSub.element_in subs) : gset Z)) in
  ActivePick.mk pick (wasSubbedIn || benchBoost) wasSubbedIn wasSubbedOut.

(** *** getPlayerDetails *)

Module Team.
(** An entry of [bootstrap.teams]. *)
Record t := mk { short_name : string; code : Z }.
End Team.

(** The application with the fields the display functions read beside the
    engine's. *)
Record Display := mkDisplay {
  engine : App;
  teams : option (gmap Z Team.t)
}.

Module PlayerInfo.
(** The object [getPlayerInfo] returns for one pick. *)
Record t := mk {
  id : Z;
  name : string;
  teamName : string;
  teamCode : Z;
  position : Z;
  points : Z;
  bonusPoints : Z;
  effectivePoints : Z;
  multiplier : Z;
  isCaptain : bool;
  isViceCaptain : bool;
  hasPlayed : bool;
  minutes : Z;
  isBench : bool;
  wasSubbedOut : bool;
  wasSubbedIn : bool;
  pointsCount : bool;
  fixtureStatus : string
}.
End PlayerInfo.

Module Details.
Record t := mk {
  starting : list PlayerInfo.t;
  bench : list PlayerInfo.t;
  activeChip : option string
}.
End Details.

(** ['upcoming'], ['playing'] or ['finished'] for the player's team. *)
Definition fixtureStatusOf (app : App) (player : option Player.t) : string :=
  match player, fixtures app with
  | Some pl, Some fs =>
      match teamFixture (currentGameweek app) fs (Player.team pl) with
      | Some playerFixture =>
          if Fixture.finished playerFixture || Fixture.finished_provisional playerFixture
          then "finished"
          else if Fixture.started playerFixture then "playing" else "upcoming"
      | None => "upcoming"
      end
  | _, _ => "upcoming"
  end.

(** [s || d] on a string. *)
Definition strOr (s d : string) : string := if String.eqb s EmptyString then d else s.

Definition getPlayerInfo (d : Display) (benchBoost : bool)
    (provisionalBonus : gmap Z Z) (subs : list AutoSub.t)
    (index : nat) (pick : Pick.t) : result PlayerInfo.t :=
  match players (engine d) with
  | None => TypeError
  | Some ps =>
      let player := ps !! Pick.element pick in
      team ← match player with
             | Some pl =>
                 match teams d with
                 | Some ts => Ok (ts !! Player.team pl)
                 | None => TypeError
                 end
             | None => Ok None
             end;
      let els := default [] (liveData (engine d)) in
      let liveElement := findElement els (Pick.element pick) in
      let apiBonus := stat Stats.bonus liveElement in
      let calcBonus := default 0 (provisionalBonus !! Pick.element pick) in
      let bonusPoints := if 0 <? apiBonus then apiBonus else calcBonus in
      let points := pickPoints els provisionalBonus (Pick.element pick) in
      let minutes := stat Stats.minutes liveElement in
      let hasPlayed := 0 <? minutes in
      let wasSubbedOut :=
        bool_decide (Pick.element pick ∈
          (list_to_set (map AutoSub.element_out subs) : gset Z)) in
      let wasSubbedIn :=
        bool_decide (Pick.element pick ∈
          (list_to_set (map AutoSub.element_in subs) : gset Z)) in
      let isStarting := (index <? 11)%nat in
      let pointsCount := (isStarting && negb wasSubbedOut) || wasSubbedIn ||
                         (benchBoost && (11 <=? index)%nat) in
      let effectivePoints := if pointsCount then points * Pick.multiplier pick else 0 in
      Ok {| PlayerInfo.id := Pick.element pick;
            PlayerInfo.name := nameOrUnknown player;
            PlayerInfo.teamName :=
              match team with Some t => strOr (Team.short_name t) "???" | None => "???" end;
            PlayerInfo.teamCode :=
              match team with Some t => Team.code t | None => 0 end;
            PlayerInfo.position :=
              match player with Some pl => Player.element_type pl | None => 0 end;
            PlayerInfo.points := points;
            PlayerInfo.bonusPoints := bonusPoints;
            PlayerInfo.effectivePoints := effectivePoints;
            PlayerInfo.multiplier := Pick.multiplier pick;
            PlayerInfo.isCaptain := Pick.is_captain pick;
            PlayerInfo.isViceCaptain := Pick.is_vice_captain pick;
            PlayerInfo.hasPlayed := hasPlayed;
            PlayerInfo.minutes := minutes;
            PlayerInfo.isBench := (11 <=? index)%nat;
            PlayerInfo.wasSubbedOut := wasSubbedOut;
            PlayerInfo.wasSubbedIn := wasSubbedIn;
            PlayerInfo.pointsCount := pointsCount;
            PlayerInfo.fixtureStatus := fixtureStatusOf (engine d) player |}
  end.

Definition getPlayerDetails (d : Display) (picks : option Picks.t) : result Details.t :=
  let none := Ok (Details.mk [] [] None) in
  match picks with
  | None => none
  | Some picks =>
      match Picks.picks picks with
      | None => none
      | Some allPicks =>
          let activeChip := Picks.active_chip picks in
          let provisionalBonus := calculateProvisionalBonus (engine d) in
          let subs := calculateLocalAutoSubs (engine d) (Some picks) in
          allPlayers ← mapResult
                         (fun ip => getPlayerInfo d (isBenchBoost activeChip)
                                      provisionalBonus subs ip.1 ip.2)
                         (imap pair allPicks);
          Ok (Details.mk (firstn 11 allPlayers) (skipn 11 allPlayers) activeChip)
      end
  end.

(** The points of the rows of the detail view that have played. *)
Definition shownTotal (det : Details.t) : Z :=
  sumZ (map PlayerInfo.effectivePoints
          (List.filter PlayerInfo.hasPlayed (Details.starting det ++ Details.bench det))).

(** The rows that count and have played. *)
Definition shownPlayed (det : Details.t) : Z :=
  Z.of_nat (length (List.filter
                      (fun r => PlayerInfo.pointsCount r && PlayerInfo.hasPlayed r)
                      (Details.starting det ++ Details.bench det))).

(** How a row of the detail view and the flags of [activePicks] for the
    same pick relate. *)
Definition rowMatches (els : list LiveElement.t) (provisionalBonus : gmap Z Z)
    (row : PlayerInfo.t) (ap : ActivePick.t) : Prop :=
  PlayerInfo.pointsCount row = ActivePick.isActive ap ∧
  PlayerInfo.hasPlayed row = hasPlayed els (Pick.element (ActivePick.pick ap)) ∧
  PlayerInfo.effectivePoints row =
    if ActivePick.isActive ap
    then pickPoints els provisionalBonus (Pick.element (ActivePick.pick ap))
         * Pick.multiplier (ActivePick.pick ap)
    else 0.

(** [picks?.picks], the empty list when it is missing. *)
Definition rosterPicks (picks : option Picks.t) : list Pick.t :=
  match picks with
  | Some picks => default [] (Picks.picks picks)
  | None => []
  end.

Module Club.
(** Players and teams loaded, the 5-4-1 snapshot. *)
Definition teamsMap : gmap Z Team.t :=
  {[ 1 := Team.mk "ARS" 3; 2 := Team.mk "MUN" 1; 7 := Team.mk "CHE" 8 ]}.

Definition display : Display := mkDisplay Sample.worldLoneForward (Some teamsMap).

(** Fixture 1-2 in play with BPS 35, 30, 30, 12 and 5 and no official
    bonus yet. *)
Definition liveBps : list LiveElement.t :=
  [ LiveElement.mk 2 (Some (Stats.mk 90 6 0 30));
    LiveElement.mk 7 (Some (Stats.mk 90 9 0 35));
    LiveElement.mk 8 (Some (Stats.mk 90 5 0 30));
    LiveElement.mk 9 (Some (Stats.mk 90 2 0 12));
    LiveElement.mk 10 (Some (Stats.mk 90 2 0 5)) ].

Definition displayBps : Display :=
  mkDisplay (Sample.mkWorld (Sample.squad442 5) liveBps) (Some teamsMap).
End Club.

(** *** getFixtureEvents: the bonus column *)

Module FixturePlayer.
(** The objects [getFixtureEvents] pushes on [playersInFixture];
    [teamCode] is [team?.code]. *)
Record t := mk {
  id : Z;
  name : string;
  teamName : string;
  teamCode : option Z;
  bps : Z;
  apiBonus : Z
}.
End FixturePlayer.

Module BonusRow.
(** [{ ...p, bonus }]. *)
Record t := mk { player : FixturePlayer.t; bonus : Z }.
End BonusRow.

(** The players of the fixture who have played, as [getFixtureEvents]
    collects them; [this.players.get] throws when the players are not
    loaded and there is an element to look up. *)
Definition fixturePlayers (d : Display) (ts : gmap Z Team.t) (els : list LiveElement.t)
    (fixture : Fixture.t) : result (list FixturePlayer.t) :=
  match players (engine d) with
  | None => match els with [] => Ok [] | _ :: _ => TypeError end
  | Some ps =>
      let homeTeam := ts !! Fixture.team_h fixture in
      let awayTeam := ts !! Fixture.team_a fixture in
      Ok (flat_map (fun element =>
            match ps !! LiveElement.id element with
            | None => []
            | Some player =>
                if (Player.team player =? Fixture.team_h fixture) ||
                   (Player.team player =? Fixture.team_a fixture)
                then
                  let team := if Player.team player =? Fixture.team_h fixture
                              then homeTeam else awayTeam in
                  if 0 <? stat Stats.minutes (Some element)
                  then [FixturePlayer.mk (Player.id player) (Player.web_name player)
                          (match team with
                           | Some t => strOr (Team.short_name t) "???"
                           | None => "???"
                           end)
                          (Team.code <$> team)
                          (stat Stats.bps (Some element))
                          (stat Stats.bonus (Some element))]
                  else []
                else []
            end) els)
  end.

(** The inner [while] of the second copy of the award loop. *)
Fixpoint takeTiedPlayers (currentBps : Z) (l : list FixturePlayer.t)
    : list FixturePlayer.t * list FixturePlayer.t :=
  match l with
  | p :: l' =>
      if FixturePlayer.bps p =? currentBps
      then let '(tied, rest) := takeTiedPlayers currentBps l' in (p :: tied, rest)
      else ([], l)
  | [] => ([], [])
  end.

(** The outer [while] of the second copy: the rows pushed on
    [events.bonus], in order. *)
Fixpoint awardRows (fuel : nat) (position : Z) (l : list FixturePlayer.t)
    : list BonusRow.t :=
  match fuel with
  | O => []
  | S fuel' =>
      match l with
      | [] => []
      | p :: _ =>
          if position <=? 3 then
            let '(tiedPlayers, rest) := takeTiedPlayers (FixturePlayer.bps p) l in
            let bonus := 4 - position in
            map (fun q => BonusRow.mk q bonus) tiedPlayers
            ++ awardRows fuel' (position + Z.of_nat (length tiedPlayers)) rest
          else []
      end
  end.

(** [events.bonus] and [events.bonusConfirmed] of [getFixtureEvents]. The
    goals, assists and cards columns of the same function read statistics
    that are not part of the model and do not touch these two fields. *)
Definition getFixtureEvents (d : Display) (fixture : Fixture.t)
    : result (list BonusRow.t * bool) :=
  match liveData (engine d) with
  | None => Ok ([], false)
  | Some els =>
      if negb (Fixture.started fixture) then Ok ([], false) else
      match teams d with
      | None => TypeError
      | Some ts =>
          playersInFixture ← fixturePlayers d ts els fixture;
          let hasOfficialBonus :=
            existsb (fun p => 0 <? FixturePlayer.apiBonus p) playersInFixture in
          let bonus :=
            if hasOfficialBonus then
              map (fun p => BonusRow.mk p (FixturePlayer.apiBonus p))
                  (js_sort (fun a b => FixturePlayer.apiBonus b - FixturePlayer.apiBonus a)
                     (List.filter (fun p => 0 <? FixturePlayer.apiBonus p) playersInFixture))
            else
              let sorted :=
                js_sort (fun a b => FixturePlayer.bps b - FixturePlayer.bps a)
                        playersInFixture in
              awardRows (length sorted) 1 sorted in
          Ok (js_sort (fun a b => BonusRow.bonus b - BonusRow.bonus a) bonus,
              hasOfficialBonus)
      end
  end.

(** Rows in descending order of bonus. *)
Definition bonusGe (a b : BonusRow.t) : Prop := BonusRow.bonus b <= BonusRow.bonus a.

(** A fixture player as the scorer's award loop sees it. *)
Definition asBpsEntry (p : FixturePlayer.t) : BpsEntry.t :=
  BpsEntry.mk (FixturePlayer.id p) (FixturePlayer.bps p) (FixturePlayer.name p).

(** The players map as [loadLeague] builds it: every player is stored
    under its own id. *)
Definition keyedById (ps : gmap Z Player.t) : Prop :=
  ∀ k p, ps !! k = Some p -> Player.id p = k.

Module ClubRows.
(** The bonus column [getFixtureEvents] returns for fixture 1-2 of
    [Club.displayBps]. *)
Definition rows : list BonusRow.t :=
  [ BonusRow.mk (FixturePlayer.mk 7 "Saka" "ARS" (Some 3) 35 0) 3;
    BonusRow.mk (FixturePlayer.mk 2 "Saliba" "ARS" (Some 3) 30 0) 2;
    BonusRow.mk (FixturePlayer.mk 8 "Rice" "ARS" (Some 3) 30 0) 2 ].
End ClubRows.

(** *** getTeamColor, getTeamTextColor *)

Definition teamColors : gmap Z string :=
  list_to_map
    [ (3, "#EF0107"); (7, "#670E36"); (91, "#e30613"); (94, "#0057B8");
      (36, "#0057B8"); (90, "#7A263A"); (8, "#034694"); (31, "#1B458F");
      (11, "#003399"); (54, "#FFFFFF"); (40, "#C8102E"); (9, "#FFFFFF");
      (2, "#003090"); (14, "#C8102E"); (43, "#6CABDD"); (1, "#DA291C");
      (4, "#241F20"); (17, "#DD0000"); (20, "#D71920"); (6, "#132257");
      (56, "#C8102E"); (21, "#7A263A"); (39, "#FDB913") ].

Definition darkTextTeams : gmap Z string :=
  list_to_map [ (54, "#000000"); (9, "#0033A0"); (39, "#000000") ].

(** [table[teamCode] || d]; [teamCode] is [undefined] for an unknown
    team. *)
Definition colorOr (table : gmap Z string) (teamCode : option Z) (d : string) : string :=
  match teamCode ≫= (table !!.) with
  | Some c => strOr c d
  | None => d
  end.

Definition getTeamColor (teamCode : option Z) : string :=
  colorOr teamColors teamCode "#333".

Definition getTeamTextColor (teamCode : option Z) : string :=
  colorOr darkTextTeams teamCode "#FFFFFF".

(** *** toggleRowExpansion, toggleFixtureExpansion (the set they keep) *)

Definition toggleFixtureExpansion (expandedFixtures : gset Z) (fixtureId : Z) : gset Z :=
  if decide (fixtureId ∈ expandedFixtures)
  then expandedFixtures ∖ {[fixtureId]}
  else expandedFixtures ∪ {[fixtureId]}.

Definition toggleRowExpansion (expandedRows : gset Z) (manager : Manager.t) : gset Z :=
  if decide (Manager.entry manager ∈ expandedRows)
  then expandedRows ∖ {[Manager.entry manager]}
  else expandedRows ∪ {[Manager.entry manager]}.

(** *** fetchWithCache *)

Module Cached.
(** [{ data, timestamp }]. *)
Record t (A : Type) := mk { data : A; timestamp : Z }.
Arguments mk {A} data timestamp.
Arguments data {A} t.
Arguments timestamp {A} t.
End Cached.

(** One call of [fetchWithCache] at time [now]; [fetched] is what
    [fetchAPI] would resolve to, [None] when it rejects. The result is the
    value the call resolves to ([None]: it rejects) and the cache it
    leaves. *)
Definition fetchWithCache {A} (cache : gmap string (Cached.t A))
    (cacheKey : string) (ttl now : Z) (fetched : option A)
    : option A * gmap string (Cached.t A) :=
  match cache !! cacheKey with
  | Some cached =>
      if now - Cached.timestamp cached <? ttl then (Some (Cached.data cached), cache)
      else match fetched with
           | Some data => (Some data, <[cacheKey := Cached.mk data now]> cache)
           | None => (None, cache)
           end
  | None =>
      match fetched with
      | Some data => (Some data, <[cacheKey := Cached.mk data now]> cache)
      | None => (None, cache)
      end
  end.

(** *** getCurrentGameweek *)

Module Event.
(** An entry of [bootstrap.events]; [deadline] is the time value of
    [new Date(e.deadline_time)], [None] for an invalid date. *)
Record t := mk { id : Z; is_current : bool; is_next : bool; deadline : option Z }.
End Event.


(** ** The simulation server: triggerAutoSubs *)

Module ServerPicks.
(** An entry of [MANAGER_PICKS]. *)
Record t := mk {
  picks : list Pick.t;
  active_chip : option string;
  automatic_subs : list AutoSub.t
}.
End ServerPicks.

(** [PLAYERS] and [livePlayerStats] (the [stats] object of each entry). *)
Record Server := mkServer {
  PLAYERS : list Player.t;
  livePlayerStats : gmap Z Stats.t
}.

(** [PLAYERS.find(p => p.id === id)]. *)
Definition findPlayer (sv : Server) (id : Z) : option Player.t :=
  js_find (fun p => Player.id p =? id) (PLAYERS sv).

(** [formation[k]++]: a counter that is not there becomes not-a-number and
    is never read. *)
Definition bump (formation : gmap Z Z) (k : Z) : gmap Z Z :=
  match formation !! k with
  | Some c => <[k := c + 1]> formation
  | None => formation
  end.

(** [getCurrentFormation()] when [picks.automatic_subs] is [subs]. *)
Definition getCurrentFormation (sv : Server) (starting11 bench : list Pick.t)
    (subs : list AutoSub.t) : gmap Z Z :=
  let subbedOut : gset Z := list_to_set (map AutoSub.element_out subs) in
  let subbedIn : gset Z := list_to_set (map AutoSub.element_in subs) in
  let count (skip : Pick.t -> bool) (formation : gmap Z Z) (pick : Pick.t) :=
    if skip pick then formation else
    match findPlayer sv (Pick.element pick), livePlayerStats sv !! Pick.element pick with
    | Some player, Some stats =>
        if 0 <? Stats.minutes stats then bump formation (Player.element_type player)
        else formation
    | _, _ => formation
    end in
  let formation :=
    fold_left (count (fun pick => bool_decide (Pick.element pick ∈ subbedOut)))
              starting11 initialFormation in
  fold_left (count (fun pick => negb (bool_decide (Pick.element pick ∈ subbedIn))))
            bench formation.

(** [FORMATION_RULES] for positions 2, 3 and 4. *)
Definition withinRules (formation : gmap Z Z) : bool :=
  forallb (fun rule : Z * (Z * Z) =>
             negb (countLt formation rule.1 rule.2.1
                   || countGt formation rule.1 rule.2.2))
          [(2, (3, 5)); (3, (2, 5)); (4, (1, 3))].

(** [isValidSub(playerOut, playerIn)]; reading [playerIn.element_type] of a
    player that is not in [PLAYERS] throws. *)
Definition isValidSub (sv : Server) (starting11 bench : list Pick.t)
    (subs : list AutoSub.t) (playerOut : Player.t) (playerIn : option Player.t)
    : result bool :=
  match playerIn with
  | None => TypeError
  | Some playerIn =>
      let outPos := Player.element_type playerOut in
      let inPos := Player.element_type playerIn in
      if (outPos =? 1) || (inPos =? 1) then Ok ((outPos =? 1) && (inPos =? 1)) else
      let formation := getCurrentFormation sv starting11 bench subs in
      let newFormation := bump formation inPos in
      Ok (withinRules newFormation)
  end.

(** [bench.find(bp => ...)]. *)
Fixpoint findBenchPlayer (sv : Server) (starting11 bench : list Pick.t)
    (subs : list AutoSub.t) (usedBenchPlayers : gset Z) (player : Player.t)
    (candidates : list Pick.t) : result (option Pick.t) :=
  match candidates with
  | [] => Ok None
  | bp :: rest =>
      let next := findBenchPlayer sv starting11 bench subs usedBenchPlayers player rest in
      if bool_decide (Pick.element bp ∈ usedBenchPlayers) then next else
      let bpPlayer := findPlayer sv (Pick.element bp) in
      match livePlayerStats sv !! Pick.element bp with
      | None => next
      | Some bpStats =>
          if Stats.minutes bpStats =? 0 then next else
          match isValidSub sv starting11 bench subs player bpPlayer with
          | Ok true => Ok (Some bp)
          | Ok false => next
          | TypeError => TypeError
          end
      end
  end.

(** One turn of [starting11.forEach]: the substitutions so far and the used
    bench players, before and after. *)
Definition triggerStarter (sv : Server) (fixture : Fixture.t) (managerId : Z)
    (starting11 bench : list Pick.t) (st : list AutoSub.t * gset Z) (pick : Pick.t)
    : result (list AutoSub.t * gset Z) :=
  let '(subs, usedBenchPlayers) := st in
  match findPlayer sv (Pick.element pick) with
  | None => Ok st
  | Some player =>
      if negb (Player.team player =? Fixture.team_h fixture) &&
         negb (Player.team player =? Fixture.team_a fixture) then Ok st else
      if existsb (fun s => AutoSub.element_out s =? Pick.element pick) subs then Ok st else
      match livePlayerStats sv !! Pick.element pick with
      | None => Ok st
      | Some stats =>
          if negb (Stats.minutes stats =? 0) then Ok st else
          found ← findBenchPlayer sv starting11 bench subs usedBenchPlayers player bench;
          match found with
          | None => Ok st
          | Some benchPlayer =>
              Ok (subs ++ [AutoSub.mk (Pick.element benchPlayer) (Pick.element pick)
                                      managerId 22],
                  usedBenchPlayers ∪ {[Pick.element benchPlayer]})
          end
      end
  end.

(** The body of [triggerAutoSubs] for one manager. *)
Definition triggerAutoSubsFor (sv : Server) (fixture : Fixture.t) (managerId : Z)
    (picks : ServerPicks.t) : result ServerPicks.t :=
  if isBenchBoost (ServerPicks.active_chip picks) then Ok picks else
  let starting11 := firstn 11 (ServerPicks.picks picks) in
  let bench := skipn 11 (ServerPicks.picks picks) in
  let usedBenchPlayers : gset Z :=
    list_to_set (map AutoSub.element_in (ServerPicks.automatic_subs picks)) in
  st ← forEachM (triggerStarter sv fixture managerId starting11 bench) starting11
                (ServerPicks.automatic_subs picks, usedBenchPlayers);
  Ok (ServerPicks.mk (ServerPicks.picks picks) (ServerPicks.active_chip picks) st.1).

(** What the server establishes for a substitution it adds when the list
    so far is [subs]: the starter is a known player of the fixture without
    minutes, the bench player has minutes, goalkeepers swap with
    goalkeepers only, and for outfield players the formation that has
    played so far, with the newcomer, is within all the rules. *)
Definition serverSub (sv : Server) (fixture : Fixture.t) (allPicks : list Pick.t)
    (subs : list AutoSub.t) (sub : AutoSub.t) : Prop :=
  ∃ playerOut playerIn statsOut statsIn,
    findPlayer sv (AutoSub.element_out sub) = Some playerOut ∧
    findPlayer sv (AutoSub.element_in sub) = Some playerIn ∧
    In (AutoSub.element_out sub) (map Pick.element (firstn 11 allPicks)) ∧
    In (AutoSub.element_in sub) (map Pick.element (skipn 11 allPicks)) ∧
    (Player.team playerOut = Fixture.team_h fixture ∨
     Player.team playerOut = Fixture.team_a fixture) ∧
    livePlayerStats sv !! AutoSub.element_out sub = Some statsOut ∧
    Stats.minutes statsOut = 0 ∧
    livePlayerStats sv !! AutoSub.element_in sub = Some statsIn ∧
    Stats.minutes statsIn <> 0 ∧
    ~ In (AutoSub.element_in sub) (map AutoSub.element_in subs) ∧
    ~ In (AutoSub.element_out sub) (map AutoSub.element_out subs) ∧
    if (Player.element_type playerOut =? 1) || (Player.element_type playerIn =? 1)
    then Player.element_type playerOut = 1 ∧ Player.element_type playerIn = 1
    else withinRules
           (bump (getCurrentFormation sv (firstn 11 allPicks) (skipn 11 allPicks) subs)
                 (Player.element_type playerIn)) = true.

(** [new] was added one substitution at a time to [subs], each as
    [serverSub] describes. *)
Fixpoint serverSubs (sv : Server) (fixture : Fixture.t) (allPicks : list Pick.t)
    (subs new : list AutoSub.t) : Prop :=
  match new with
  | [] => True
  | sub :: rest =>
      serverSub sv fixture allPicks subs sub ∧
      serverSubs sv fixture allPicks (subs ++ [sub]) rest
  end.

Module Simulation.
(** The 5-4-1 snapshot on the simulation server: forward 10 did not play,
    bench 12 (GK), 13 (MID), 14 (FWD) and 15 (DEF) all did. *)
Definition server : Server :=
  mkServer Sample.squad541
    (list_to_map
       (map (fun e => (LiveElement.id e, default (Stats.mk 0 0 0 0) (LiveElement.stats e)))
            Sample.live541)).

Definition roster : ServerPicks.t :=
  ServerPicks.mk (map Sample.slot [1; 2; 3; 4; 5; 6; 7; 8; 9; 10; 11; 12; 13; 14; 15])
                 None [].

Definition fixture12 : Fixture.t := Fixture.mk 22 1 2 true true true.
End Simulation.

(** *** createPlayerDetailsRow: the position groups *)


(** * Properties *)

(** ** The stable sort *)

Section JsSort.
Context {A : Type} (cmp : A -> A -> Z).

Lemma sort_insert_Permutation x l : Permutation (sort_insert cmp x l) (x :: l).
Proof.
  induction l as [|y l IH]; simpl; [reflexivity|].
  destruct (cmp x y <=? 0); [reflexivity|].
  rewrite IH. apply perm_swap.
Qed.

Lemma js_sort_Permutation l : Permutation (js_sort cmp l) l.
Proof.
  induction l as [|x l IH]; simpl; [constructor|].
  rewrite sort_insert_Permutation. by constructor.
Qed.

Lemma js_sort_length l : length (js_sort cmp l) = length l.
Proof. apply Permutation_length, js_sort_Permutation. Qed.

(** Sortedness, for any transitive order [R] the comparator decides. *)
Section Sorted.
Variable R : A -> A -> Prop.
Hypothesis R_le : forall a b, cmp a b <= 0 -> R a b.
Hypothesis R_gt : forall a b, 0 < cmp a b -> R b a.
Hypothesis R_trans : forall a b c, R a b -> R b c -> R a c.

Lemma sort_insert_StronglySorted x l :
  StronglySorted R l -> StronglySorted R (sort_insert cmp x l).
Proof.
  induction 1 as [|y l Hl IH Hy]; simpl.
  - repeat constructor.
  - destruct (Z.leb_spec (cmp x y) 0) as [Hle|Hgt].
    + constructor; [by constructor|].
      constructor; [by apply R_le|].
      eapply List.Forall_impl; [|exact Hy]. intros z Hz.
      eapply R_trans; [apply R_le|]; eauto.
    + constructor; [exact IH|].
      eapply Permutation_Forall; [symmetry; apply sort_insert_Permutation|].
      constructor; [by apply R_gt | exact Hy].
Qed.

Lemma js_sort_StronglySorted l : StronglySorted R (js_sort cmp l).
Proof.
  induction l; simpl; [constructor | by apply sort_insert_StronglySorted].
Qed.
End Sorted.

(** Stability: a class [f] of mutually tied elements keeps its order. *)
Section Stable.
Variable f : A -> bool.
Hypothesis f_tied : forall a b, f a = true -> f b = true -> cmp a b <= 0.

Lemma sort_insert_filter x l :
  List.filter f (sort_insert cmp x l) = List.filter f (x :: l).
Proof.
  induction l as [|y l IH]; [reflexivity|].
  cbn [sort_insert].
  destruct (Z.leb_spec (cmp x y) 0) as [Hle|Hgt]; [reflexivity|].
  cbn [List.filter] in *. rewrite IH.
  destruct (f x) eqn:Hx, (f y) eqn:Hy; try reflexivity.
  specialize (f_tied x y Hx Hy). lia.
Qed.

Lemma js_sort_filter l : List.filter f (js_sort cmp l) = List.filter f l.
Proof.
  induction l as [|x l IH]; [reflexivity|].
  cbn [js_sort]. rewrite sort_insert_filter. cbn [List.filter].
  by rewrite IH.
Qed.
End Stable.
End JsSort.

(** ** sortScores *)

Lemma sortField_primaryField app s : sortField app s = primaryField app s.
Proof.
  unfold sortField, primaryField.
  destruct (String.eqb_spec (currentView app) "monthly"), (decide _); congruence.
Qed.

Lemma compareScores_le app a b :
  compareScores (sortField app) a b <= 0 -> rankedBefore app a b.
Proof.
  unfold compareScores, rankedBefore. rewrite <- !sortField_primaryField.
  destruct (Z.eqb_spec (sortField app b) (sortField app a)); simpl; [|lia].
  destruct (Z.eqb_spec (Score.gameweekPoints b) (Score.gameweekPoints a)); simpl; lia.
Qed.

Lemma compareScores_gt app a b :
  0 < compareScores (sortField app) a b -> rankedBefore app b a.
Proof.
  unfold compareScores, rankedBefore. rewrite <- !sortField_primaryField.
  destruct (Z.eqb_spec (sortField app b) (sortField app a)); simpl; [|lia].
  destruct (Z.eqb_spec (Score.gameweekPoints b) (Score.gameweekPoints a)); simpl; lia.
Qed.

Lemma rankedBefore_trans app a b c :
  rankedBefore app a b -> rankedBefore app b c -> rankedBefore app a c.
Proof. unfold rankedBefore. lia. Qed.

Lemma compareScores_sameKey app k a b :
  sameKey app k a = true -> sameKey app k b = true ->
  compareScores (sortField app) a b <= 0.
Proof.
  unfold sameKey, rankKey. intros Ha%bool_decide_eq_true Hb%bool_decide_eq_true.
  rewrite <- Hb in Ha. injection Ha as H1 H2 H3.
  unfold compareScores. rewrite !sortField_primaryField, H1, H2, H3.
  rewrite !Z.eqb_refl. simpl. lia.
Qed.

(** C9. [sortScores] returns the same managers, ordered by the primary field
    of the current view (monthly total in the monthly view, gameweek total
    otherwise) descending, then by gameweek points, then by career total;
    managers equal on all three keys come out in their input order. *)
Theorem sortScores_ranking (app : App) (scores : list Score.t) :
  Permutation (sortScores app scores) scores ∧
  StronglySorted (rankedBefore app) (sortScores app scores) ∧
  ∀ k, List.filter (sameKey app k) (sortScores app scores)
       = List.filter (sameKey app k) scores.
Proof.
  unfold sortScores. split; [apply js_sort_Permutation|]. split.
  - apply js_sort_StronglySorted.
    + apply compareScores_le.
    + apply compareScores_gt.
    + apply rankedBefore_trans.
  - intros k. apply js_sort_filter. apply compareScores_sameKey.
Qed.

(** ** calculateProvisionalBonus: the award loop *)

Lemma filter_all {A} (f : A -> bool) l :
  (forall x, In x l -> f x = true) -> List.filter f l = l.
Proof.
  induction l as [|x l IH]; intros H; simpl; [reflexivity|].
  rewrite (H x (or_introl eq_refl)), IH; [reflexivity|].
  intros y Hy. apply H. by right.
Qed.

Lemma filter_none {A} (f : A -> bool) l :
  (forall x, In x l -> f x = false) -> List.filter f l = [].
Proof.
  induction l as [|x l IH]; intros H; simpl; [reflexivity|].
  rewrite (H x (or_introl eq_refl)). apply IH.
  intros y Hy. apply H. by right.
Qed.

Lemma filter_length_Permutation {A} (f : A -> bool) l l' :
  Permutation l l' -> length (List.filter f l) = length (List.filter f l').
Proof.
  induction 1 as [|x l l' _ IH|x y l|l l' l'' _ IH1 _ IH2]; simpl.
  - reflexivity.
  - destruct (f x); simpl; congruence.
  - destruct (f x), (f y); reflexivity.
  - congruence.
Qed.

Lemma bpsRank_Permutation l l' p : Permutation l l' -> bpsRank l p = bpsRank l' p.
Proof. intros H. unfold bpsRank. by rewrite (filter_length_Permutation _ _ _ H). Qed.

(** The inner loop splits the array into the players tied at [b] and the
    rest, which does not begin with a player at [b]. *)
Lemma takeTied_split b l tied rest :
  takeTied b l = (tied, rest) ->
  l = tied ++ rest ∧ Forall (fun q => BpsEntry.bps q = b) tied ∧
  (forall r rest', rest = r :: rest' -> BpsEntry.bps r <> b).
Proof.
  revert tied rest. induction l as [|x l IH]; intros tied rest; simpl.
  - intros [= <- <-]. repeat split; [constructor | discriminate].
  - destruct (Z.eqb_spec (BpsEntry.bps x) b) as [Hx|Hx].
    + destruct (takeTied b l) as [t r]. intros [= <- <-].
      destruct (IH t r eq_refl) as (-> & Ht & Hr).
      repeat split; [by constructor | exact Hr].
    + intros [= <- <-]. repeat split; [constructor|].
      by intros r rest' [= <- <-].
Qed.

Lemma takeTied_sorted p l tied rest :
  StronglySorted bpsGe (p :: l) ->
  takeTied (BpsEntry.bps p) (p :: l) = (tied, rest) ->
  p :: l = tied ++ rest ∧ (length rest < length (p :: l))%nat ∧
  Forall (fun q => BpsEntry.bps q = BpsEntry.bps p) tied ∧
  Forall (fun q => BpsEntry.bps q < BpsEntry.bps p) rest ∧
  StronglySorted bpsGe rest.
Proof.
  intros Hs Ht. pose proof Ht as Ht'. simpl in Ht'. rewrite Z.eqb_refl in Ht'.
  destruct (takeTied_split _ _ _ _ Ht) as (Happ & Htied & Hrest).
  assert (length tied <> 0%nat) as Hlen.
  { destruct (takeTied (BpsEntry.bps p) l). by injection Ht' as <- _. }
  assert (StronglySorted bpsGe rest) as Hsr.
  { rewrite Happ in Hs. clear -Hs. induction tied; [exact Hs|].
    apply IHtied. by inversion Hs. }
  assert (Forall (bpsGe p) rest) as Hle.
  { apply StronglySorted_inv in Hs as [_ Hs]. apply List.Forall_forall.
    intros q Hq. assert (In q (p :: l)) as [<-|Hin].
    { rewrite Happ. apply in_or_app. by right. }
    - unfold bpsGe. lia.
    - eapply List.Forall_forall in Hs; eauto. }
  repeat split; try done.
  - rewrite Happ, length_app. lia.
  - destruct rest as [|r rest']; [constructor|].
    specialize (Hrest r rest' eq_refl).
    apply StronglySorted_inv in Hsr as [_ Hr].
    inversion Hle as [|? ? Hpr Hle']; subst. unfold bpsGe in Hpr.
    constructor; [lia|].
    eapply List.Forall_impl; [|exact Hr]. unfold bpsGe. intros; lia.
Qed.

Lemma setBonus_applyWrites bonus tied m :
  setBonus bonus m tied = applyWrites m (map (fun q => (BpsEntry.id q, bonus)) tied).
Proof.
  unfold setBonus, applyWrites. revert m.
  induction tied as [|q tied IH]; intros m; simpl; [reflexivity | apply IH].
Qed.

Lemma applyWrites_app m w1 w2 :
  applyWrites m (w1 ++ w2) = applyWrites (applyWrites m w1) w2.
Proof. apply fold_left_app. Qed.

Lemma bpsRank_tied tied rest p q :
  Forall (fun x => BpsEntry.bps x = BpsEntry.bps p) tied ->
  Forall (fun x => BpsEntry.bps x < BpsEntry.bps p) rest ->
  In q tied -> bpsRank (tied ++ rest) q = 1.
Proof.
  intros Ht Hr Hq. unfold bpsRank.
  rewrite filter_none; [reflexivity|].
  rewrite List.Forall_forall in Ht, Hr.
  intros x [Hx|Hx]%in_app_or; apply Z.ltb_ge.
  - rewrite (Ht x Hx), (Ht q Hq). lia.
  - specialize (Hr x Hx). rewrite (Ht q Hq). lia.
Qed.

Lemma bpsRank_rest tied rest p q :
  Forall (fun x => BpsEntry.bps x = BpsEntry.bps p) tied ->
  Forall (fun x => BpsEntry.bps x < BpsEntry.bps p) rest ->
  In q rest -> bpsRank (tied ++ rest) q = Z.of_nat (length tied) + bpsRank rest q.
Proof.
  intros Ht Hr Hq. unfold bpsRank.
  rewrite List.filter_app, length_app, filter_all; [lia|].
  rewrite List.Forall_forall in Ht, Hr.
  intros x Hx. apply Z.ltb_lt. rewrite (Ht x Hx). by apply Hr.
Qed.

(** The loop entered at position [1 + c] awards [4 - (c + rank)] to every
    player whose rank among the remaining players, shifted by [c], is at
    most 3, front to back. *)
Lemma awardLoop_writes fuel : forall s c m,
  StronglySorted bpsGe s -> (length s <= fuel)%nat ->
  awardLoop fuel (1 + c) s m =
  applyWrites m
    (map (fun p => (BpsEntry.id p, 4 - (c + bpsRank s p)))
         (List.filter (fun p => c + bpsRank s p <=? 3) s)).
Proof.
  induction fuel as [|fuel IH]; intros s c m Hs Hlen.
  - destruct s; [reflexivity | simpl in Hlen; lia].
  - destruct s as [|p l]; [reflexivity|].
    cbn [awardLoop].
    destruct (Z.leb_spec (1 + c) 3) as [Hpos|Hpos].
    + destruct (takeTied (BpsEntry.bps p) (p :: l)) as [tied rest] eqn:Ht.
      destruct (takeTied_sorted _ _ _ _ Hs Ht) as (Happ & Hlt & Htied & Hrest & Hsr).
      replace (1 + c + Z.of_nat (length tied)) with (1 + (c + Z.of_nat (length tied))) by lia.
      rewrite IH; [|exact Hsr|simpl in *; lia].
      rewrite Happ, List.filter_app, map_app, applyWrites_app.
      rewrite setBonus_applyWrites. f_equal; [f_equal|].
      * rewrite filter_all.
        -- apply map_ext_in. intros q Hq.
           rewrite (bpsRank_tied _ _ _ _ Htied Hrest Hq). f_equal. lia.
        -- intros q Hq. rewrite (bpsRank_tied _ _ _ _ Htied Hrest Hq). lia.
      * erewrite filter_ext_in.
        -- apply map_ext_in. intros q Hq%filter_In. destruct Hq as [Hq _].
           rewrite (bpsRank_rest _ _ _ _ Htied Hrest Hq). f_equal. lia.
        -- intros q Hq. simpl.
           rewrite (bpsRank_rest _ _ _ _ Htied Hrest Hq). f_equal. lia.
    + rewrite filter_none; [reflexivity|].
      intros q _. apply Z.leb_gt. unfold bpsRank. lia.
Qed.

Lemma bpsDescending_sorted l : StronglySorted bpsGe (js_sort bpsDescending l).
Proof.
  apply js_sort_StronglySorted; unfold bpsDescending, bpsGe; intros; lia.
Qed.

(** C4. One fixture's provisional bonus: the players are sorted by BPS
    descending (stably); a player gets [4 - rank] where [rank] is one more
    than the number of players with a strictly higher BPS, so tied players
    share a position's bonus and the next position moves on by the number
    of tied players; players whose rank is beyond 3 get nothing. For BPS
    10, 10, 8, 8, 8, 5 (ids 1 to 6) the map is 1:3, 2:3, 3:1, 4:1, 5:1,
    nobody gets 2 and player 6 is absent. *)
Theorem provisional_bonus_by_position :
  (∀ (l : list BpsEntry.t) (bonusMap : gmap Z Z),
     Permutation (js_sort bpsDescending l) l ∧
     StronglySorted bpsGe (js_sort bpsDescending l) ∧
     awardBonus (js_sort bpsDescending l) bonusMap =
       applyWrites bonusMap
         (map (fun p => (BpsEntry.id p, 4 - bpsRank l p))
              (List.filter (fun p => bpsRank l p <=? 3) (js_sort bpsDescending l)))) ∧
  map BpsEntry.bps Sample.bps6 = [10; 10; 8; 8; 8; 5] ∧
  awardBonus (js_sort bpsDescending Sample.bps6) ∅
    = {[ 1 := 3; 2 := 3; 3 := 1; 4 := 1; 5 := 1 ]} ∧
  awardBonus (js_sort bpsDescending Sample.bps6) ∅ !! 6 = None ∧
  (∀ i, awardBonus (js_sort bpsDescending Sample.bps6) ∅ !! i ≠ Some 2).
Proof.
  split; [|split; [reflexivity|]].
  - intros l bonusMap.
    split; [apply js_sort_Permutation|]. split; [apply bpsDescending_sorted|].
    unfold awardBonus.
    pose proof (awardLoop_writes _ _ 0 bonusMap (bpsDescending_sorted l) (le_n _)) as H.
    change (1 + 0) with 1 in H. rewrite H. clear H.
    f_equal. erewrite filter_ext.
    + apply map_ext. intros p.
      by rewrite (bpsRank_Permutation _ _ p (js_sort_Permutation bpsDescending l)).
    + intros p. cbn beta.
      by rewrite (bpsRank_Permutation _ _ p (js_sort_Permutation bpsDescending l)).
  - assert (awardBonus (js_sort bpsDescending Sample.bps6) ∅
            = {[ 1 := 3; 2 := 3; 3 := 1; 4 := 1; 5 := 1 ]}) as ->.
    { vm_compute. reflexivity. }
    split; [reflexivity|]. split; [reflexivity|].
    intros i Hi.
    repeat (rewrite lookup_insert in Hi; case_decide; [congruence|]).
    apply lookup_singleton_Some in Hi as [_ Hi]. discriminate.
Qed.

(** ** calculateProvisionalBonus: what the map can hold *)

Section BonusInvariant.
Variable P : Z -> Z -> Prop.

Lemma setBonus_holdsOnly bonus tied m :
  holdsOnly P m -> Forall (fun q => P (BpsEntry.id q) bonus) tied ->
  holdsOnly P (setBonus bonus m tied).
Proof.
  unfold setBonus. revert m.
  induction tied as [|q tied IH]; intros m Hm Ht; simpl; [exact Hm|].
  inversion Ht as [|? ? Hq Ht']; subst. apply IH; [|exact Ht'].
  intros i b. rewrite lookup_insert. case_decide; [|apply Hm].
  intros [= <-]. by subst.
Qed.

Lemma awardLoop_holdsOnly fuel : forall position l m,
  1 <= position ->
  holdsOnly P m ->
  Forall (fun q => forall b, 1 <= b <= 3 -> P (BpsEntry.id q) b) l ->
  holdsOnly P (awardLoop fuel position l m).
Proof.
  induction fuel as [|fuel IH]; intros position l m Hpos Hm Hl; [exact Hm|].
  destruct l as [|p l]; [exact Hm|]. cbn [awardLoop].
  destruct (Z.leb_spec position 3) as [Hle|]; [|exact Hm].
  destruct (takeTied (BpsEntry.bps p) (p :: l)) as [tied rest] eqn:Ht.
  destruct (takeTied_split _ _ _ _ Ht) as (Happ & _ & _).
  rewrite Happ in Hl. apply Forall_app in Hl as [Htied Hrest].
  apply IH; [lia| |exact Hrest].
  apply setBonus_holdsOnly; [exact Hm|].
  eapply List.Forall_impl; [|exact Htied]. intros q Hq. apply Hq. lia.
Qed.
End BonusInvariant.

Lemma playersInFixture_In ps els fixture p :
  In p (playersInFixture ps els fixture) ->
  ∃ element player,
    In element els ∧ LiveElement.id element = BpsEntry.id p ∧
    0 < stat Stats.minutes (Some element) ∧
    ps !! BpsEntry.id p = Some player ∧
    (Player.team player = Fixture.team_h fixture ∨
     Player.team player = Fixture.team_a fixture).
Proof.
  unfold playersInFixture. rewrite in_flat_map. intros (element & Hel & Hp).
  destruct (ps !! LiveElement.id element) as [player|] eqn:Hpl; [|destruct Hp].
  destruct (_ && _) eqn:Hc; [|destruct Hp].
  destruct Hp as [<-|[]]. simpl.
  apply andb_true_iff in Hc as [Ht Hm].
  exists element, player. repeat split; try done.
  - by apply Z.ltb_lt.
  - apply orb_true_iff in Ht as [Ht|Ht]; apply Z.eqb_eq in Ht; auto.
Qed.

Lemma calculateProvisionalBonus_holdsOnly app :
  holdsOnly (fun i b => (b = 1 ∨ b = 2 ∨ b = 3) ∧ eligibleForBonus app i)
            (calculateProvisionalBonus app).
Proof.
  unfold calculateProvisionalBonus.
  destruct (fixtures app) as [fs|] eqn:Hfs; [|by intros i b; rewrite lookup_empty].
  destruct (liveData app) as [els|] eqn:Hels; [|by intros i b; rewrite lookup_empty].
  destruct (players app) as [ps|] eqn:Hps; [|by intros i b; rewrite lookup_empty].
  assert (forall f, In f (gwFixtures app fs) ->
            In f fs ∧ Fixture.event f = currentGameweek app ∧ Fixture.started f = true)
    as Hgw.
  { intros f [Hin Hc]%filter_In. apply andb_true_iff in Hc as [He Hs].
    apply Z.eqb_eq in He. done. }
  generalize dependent (gwFixtures app fs). intros gws Hgw.
  assert (holdsOnly (fun i b => (b = 1 ∨ b = 2 ∨ b = 3) ∧ eligibleForBonus app i)
            (∅ : gmap Z Z)) as Hm.
  { intros i b. by rewrite lookup_empty. }
  generalize dependent (∅ : gmap Z Z).
  induction gws as [|fixture gws IH]; intros m Hm; [exact Hm|].
  simpl. apply IH.
  - intros f Hf. apply Hgw. by right.
  - destruct (Hgw fixture (or_introl eq_refl)) as (Hin & Hev & Hst).
    apply awardLoop_holdsOnly; [lia|exact Hm|].
    apply List.Forall_forall. intros p Hp b Hb.
    split; [lia|].
    eapply Permutation_in in Hp; [|apply js_sort_Permutation].
    apply playersInFixture_In in Hp as (element & player & ? & ? & ? & ? & ?).
    exists ps, els, fs, element, player, fixture. done.
Qed.

(** C10. Every entry of the provisional bonus map is 1, 2 or 3, and its
    player has a live element with minutes > 0 and plays for a side of a
    fixture of the current gameweek that has started; so a player whose
    fixtures have not started is never in the map. *)
Theorem provisional_bonus_sound (app : App) (i b : Z) :
  calculateProvisionalBonus app !! i = Some b ->
  (b = 1 ∨ b = 2 ∨ b = 3) ∧ eligibleForBonus app i.
Proof. apply calculateProvisionalBonus_holdsOnly. Qed.

Lemma provisional_bonus_sound_witness :
  calculateProvisionalBonus Sample.worldMixedBonus !! 7 = Some 3 ∧
  (3 = 1 ∨ 3 = 2 ∨ 3 = 3) ∧ eligibleForBonus Sample.worldMixedBonus 7.
Proof.
  split; [vm_compute; reflexivity|].
  apply (provisional_bonus_sound Sample.worldMixedBonus 7 3).
  vm_compute. reflexivity.
Defined.

(** ** calculateLiveInfo returns once the players are loaded *)

Lemma tallyPick_returns app ps els provisionalBonus acc ap :
  players app = Some ps ->
  ∃ acc', tallyPick app els provisionalBonus acc ap = Ok acc'.
Proof.
  intros Hps. unfold tallyPick. rewrite Hps.
  destruct (negb _); [eauto|]. destruct (Pick.is_captain _); eauto.
Qed.

Lemma forEachM_tallyPick_returns app ps els provisionalBonus l : forall acc,
  players app = Some ps ->
  ∃ acc', forEachM (tallyPick app els provisionalBonus) l acc = Ok acc'.
Proof.
  induction l as [|ap l IH]; intros acc Hps; simpl; [eauto|].
  destruct (tallyPick_returns app ps els provisionalBonus acc ap Hps) as [acc' ->].
  simpl. by apply IH.
Qed.

Lemma calculateLiveInfo_returns app ps picks :
  players app = Some ps -> ∃ liveInfo, calculateLiveInfo app picks = Ok liveInfo.
Proof.
  intros Hps. unfold calculateLiveInfo.
  destruct picks as [picks|]; [|eauto].
  destruct (Picks.picks picks) as [allPicks|]; [|eauto].
  destruct (liveData app) as [els|]; [|eauto].
  edestruct (forEachM_tallyPick_returns app ps els) as [tally ->]; [exact Hps|].
  simpl. eauto.
Qed.

(** ** calculateScores: the monthly total *)

Lemma fold_left_conditional_sum {A} (c : A -> bool) (v : A -> Z) l : forall acc,
  fold_left (fun acc h => if c h then acc + v h else acc) l acc
  = acc + foldr Z.add 0 (map v (List.filter c l)).
Proof.
  induction l as [|h l IH]; intros acc; simpl; [lia|].
  rewrite IH. destruct (c h); simpl; lia.
Qed.

Lemma monthlyPointsBeforeCurrentGW_sum app history :
  monthlyPointsBeforeCurrentGW app (Some history)
  = historicalPoints (monthGameweeks app) (currentGameweek app) history.
Proof.
  unfold monthlyPointsBeforeCurrentGW, historicalPoints.
  by rewrite fold_left_conditional_sum.
Qed.

(** C8. For a manager with a point history, the score record carries the
    live total as gameweek points, and its monthly total is the sum of the
    history points of the period's gameweeks other than the current one,
    plus the live total when the current gameweek is in the period. With
    history {21: 50}, current gameweek 22, live total 63 and period
    {21, 22} the monthly total is 113. *)
Theorem monthly_total :
  (∀ app ps manager history picks,
     players app = Some ps ->
     managerData app !! Manager.entry manager
       = Some (ManagerData.mk (Some history) picks) ->
     ∃ liveInfo score,
       calculateLiveInfo app picks = Ok liveInfo ∧
       managerScore app manager = Ok score ∧
       Score.gameweekPoints score = LiveInfo.livePoints liveInfo ∧
       Score.monthlyPoints score =
         historicalPoints (monthGameweeks app) (currentGameweek app) history +
         (if includes (monthGameweeks app) (currentGameweek app)
          then LiveInfo.livePoints liveInfo else 0)) ∧
  (∃ liveInfo score,
     managerData Sample.worldMonth !! 1001
       = Some (ManagerData.mk (Some [HistoryEntry.mk 21 50]) (Some Sample.rosterSolo)) ∧
     currentGameweek Sample.worldMonth = 22 ∧
     monthGameweeks Sample.worldMonth = [21; 22] ∧
     calculateLiveInfo Sample.worldMonth (Some Sample.rosterSolo) = Ok liveInfo ∧
     LiveInfo.livePoints liveInfo = 63 ∧
     calculateScores Sample.worldMonth = Ok [score] ∧
     Score.monthlyPoints score = 113).
Proof.
  split.
  - intros app ps manager history picks Hps Hdata.
    destruct (calculateLiveInfo_returns app ps picks Hps) as [liveInfo Hlive].
    unfold managerScore. rewrite Hdata. cbn [ManagerData.picks ManagerData.history].
    rewrite Hlive. cbn [mbind result_bind].
    eexists _, _. split; [reflexivity|]. split; [reflexivity|].
    cbn [Score.gameweekPoints Score.monthlyPoints].
    rewrite monthlyPointsBeforeCurrentGW_sum.
    split; [reflexivity|]. destruct (includes _ _); lia.
  - eexists _, _. repeat split; vm_compute; reflexivity.
Qed.

Lemma monthly_total_witness :
  ∃ liveInfo score,
    calculateLiveInfo Sample.worldMonth (Some Sample.rosterSolo) = Ok liveInfo ∧
    managerScore Sample.worldMonth (Manager.mk 1001 1200 "Ann" "Ann FC") = Ok score ∧
    Score.gameweekPoints score = LiveInfo.livePoints liveInfo ∧
    Score.monthlyPoints score =
      historicalPoints [21; 22] 22 [HistoryEntry.mk 21 50] +
      (if includes [21; 22] 22 then LiveInfo.livePoints liveInfo else 0).
Proof.
  apply (proj1 monthly_total Sample.worldMonth
           (Sample.playersMap (Sample.squad442 5))
           (Manager.mk 1001 1200 "Ann" "Ann FC")
           [HistoryEntry.mk 21 50] (Some Sample.rosterSolo)).
  - reflexivity.
  - vm_compute. reflexivity.
Defined.

(** ** calculateLocalAutoSubs *)

(** What every locally chosen replacement satisfies: it is an unused bench
    pick of a known player whose fixture has started, a goalkeeper exactly
    when the starter is one. *)
Lemma validReplacement_Some gw ps fs used fc player benchPick benchPlayer :
  validReplacement gw ps fs used fc player benchPick = Some benchPlayer ->
  (Pick.element benchPick ∉ used) ∧
  ps !! Pick.element benchPick = Some benchPlayer ∧
  fixtureStarted (teamFixture gw fs (Player.team benchPlayer)) = true ∧
  (Player.element_type player =? 1) = (Player.element_type benchPlayer =? 1).
Proof.
  unfold validReplacement. case_decide; [discriminate|].
  destruct (ps !! Pick.element benchPick) as [bp|]; [|discriminate].
  destruct (fixtureStarted _) eqn:Hst; [|discriminate]. simpl.
  destruct (Player.element_type player =? 1) eqn:Hgk,
           (Player.element_type bp =? 1) eqn:Hbgk; simpl; try discriminate.
  - by intros [= <-].
  - destruct (_ || _); [discriminate|]. by intros [= <-].
Qed.

(** The one formation minimum the loop enforces: with fewer than three
    defenders counted, an outfield starter is replaced by a defender. *)
Lemma validReplacement_defender gw ps fs used fc player benchPick benchPlayer :
  validReplacement gw ps fs used fc player benchPick = Some benchPlayer ->
  Player.element_type player <> 1 ->
  countLt fc 2 3 = true ->
  Player.element_type benchPlayer = 2.
Proof.
  unfold validReplacement. case_decide; [discriminate|].
  destruct (ps !! Pick.element benchPick) as [bp|]; [|discriminate].
  destruct (fixtureStarted _); [|discriminate]. simpl.
  intros Hv Hgk Hlt. apply Z.eqb_neq in Hgk. rewrite Hgk, Hlt in Hv. simpl in Hv.
  destruct (Player.element_type bp =? 1); [discriminate|]. simpl in Hv.
  destruct (Z.eqb_spec (Player.element_type bp) 2) as [Hd|]; simpl in Hv;
    [|discriminate].
  destruct (_ || _); [discriminate|]. by injection Hv as <-.
Qed.

(** A bench player whose fixture has not started is passed over, and the
    walk goes on to the next one. *)
Lemma findReplacement_not_started gw ps fs used fc player benchPick benchPlayer bench :
  ps !! Pick.element benchPick = Some benchPlayer ->
  fixtureStarted (teamFixture gw fs (Player.team benchPlayer)) = false ->
  findReplacement gw ps fs used fc player (benchPick :: bench)
  = findReplacement gw ps fs used fc player bench.
Proof.
  intros Hbp Hst. cbn [findReplacement]. unfold validReplacement.
  rewrite Hbp, Hst. by case_decide.
Qed.

Lemma findReplacement_Some gw ps fs used fc player bench benchPick benchPlayer :
  findReplacement gw ps fs used fc player bench = Some (benchPick, benchPlayer) ->
  In benchPick bench ∧
  validReplacement gw ps fs used fc player benchPick = Some benchPlayer.
Proof.
  induction bench as [|b bench IH]; cbn [findReplacement]; [discriminate|].
  destruct (validReplacement gw ps fs used fc player b) as [bp|] eqn:Hv.
  - intros [= <- <-]. split; [by left | exact Hv].
  - intros Hf. destruct (IH Hf). split; [by right | done].
Qed.

Lemma substituteStarter_localSub gw ps fs els entry allPicks st pick :
  In pick (firstn 11 allPicks) ->
  Forall (localSub gw ps fs els allPicks) (autoSubs st) ->
  Forall (localSub gw ps fs els allPicks)
         (autoSubs (substituteStarter gw ps fs els entry (skipn 11 allPicks) st pick)).
Proof.
  intros Hpick Hst. unfold substituteStarter.
  destruct (ps !! Pick.element pick) as [player|] eqn:Hpl; [|exact Hst].
  destruct (Z.ltb_spec 0 (stat Stats.minutes (findElement els (Pick.element pick))))
    as [|Hmin]; [exact Hst|].
  destruct (fixtureFinished _) eqn:Hfin; [|exact Hst]. cbn [orb negb].
  destruct (findReplacement _ _ _ _ _ _ _) as [[benchPick benchPlayer]|] eqn:Hf;
    [|exact Hst].
  apply findReplacement_Some in Hf as [Hin Hv].
  apply validReplacement_Some in Hv as (_ & Hbp & Hstarted & Hgk).
  cbn [autoSubs]. apply Forall_app. split; [exact Hst|].
  constructor; [|constructor].
  exists pick, benchPick, player, benchPlayer. done.
Qed.

Lemma fold_substituteStarter_localSub gw ps fs els entry allPicks starting : forall st,
  (forall pick, In pick starting -> In pick (firstn 11 allPicks)) ->
  Forall (localSub gw ps fs els allPicks) (autoSubs st) ->
  Forall (localSub gw ps fs els allPicks)
         (autoSubs (fold_left (substituteStarter gw ps fs els entry (skipn 11 allPicks))
                              starting st)).
Proof.
  induction starting as [|pick starting IH]; intros st Hsub Hst; [exact Hst|].
  cbn [fold_left]. apply IH.
  - intros p Hp. apply Hsub. by right.
  - apply substituteStarter_localSub; [apply Hsub; by left | exact Hst].
Qed.

(** Every substitution of the local resolution takes out a starter whose
    match is over and who has no minutes, and brings in a bench pick whose
    match has started; goalkeepers are exchanged for goalkeepers only. The
    minutes of the player coming in are not looked at. *)
Lemma localAutoSubs_localSub gw ps fs els entry allPicks :
  Forall (localSub gw ps fs els allPicks) (localAutoSubs gw ps fs els entry allPicks).
Proof.
  unfold localAutoSubs. apply fold_substituteStarter_localSub; [auto | constructor].
Qed.

(** The resolver never reads the chip. *)
Lemma calculateLocalAutoSubs_ignores_chip app allPicks chip chip' subs entry :
  calculateLocalAutoSubs app (Some (Picks.mk allPicks chip subs entry))
  = calculateLocalAutoSubs app (Some (Picks.mk allPicks chip' subs entry)).
Proof. reflexivity. Qed.

(** C7. With the snapshot loaded, a non-empty upstream [automatic_subs] is
    returned as it is, whatever the snapshot holds; an empty upstream list
    is not final: the result is the local resolution, which can be
    non-empty. *)
Theorem upstream_subs_authoritative :
  (∀ app picks allPicks els fs ps sub subs,
     Picks.picks picks = Some allPicks -> liveData app = Some els ->
     fixtures app = Some fs -> players app = Some ps ->
     Picks.automatic_subs picks = Some (sub :: subs) ->
     calculateLocalAutoSubs app (Some picks) = sub :: subs) ∧
  (∀ app picks allPicks els fs ps,
     Picks.picks picks = Some allPicks -> liveData app = Some els ->
     fixtures app = Some fs -> players app = Some ps ->
     Picks.automatic_subs picks = Some [] ->
     calculateLocalAutoSubs app (Some picks)
     = localAutoSubs (currentGameweek app) ps fs els (Picks.entry picks) allPicks) ∧
  calculateLocalAutoSubs Sample.worldWaiting (Some (Sample.roster None (Some [])))
  = [AutoSub.mk 14 6 1001 22].
Proof.
  split; [|split].
  - intros app picks allPicks els fs ps sub subs Hp He Hf Hps Hsubs.
    unfold calculateLocalAutoSubs. by rewrite Hp, He, Hf, Hps, Hsubs.
  - intros app picks allPicks els fs ps Hp He Hf Hps Hsubs.
    unfold calculateLocalAutoSubs. by rewrite Hp, He, Hf, Hps, Hsubs.
  - vm_compute. reflexivity.
Qed.

Lemma upstream_subs_authoritative_witness :
  calculateLocalAutoSubs Sample.worldLoneForward
    (Some (Sample.roster None (Some [AutoSub.mk 14 10 1001 22])))
  = [AutoSub.mk 14 10 1001 22] ∧
  calculateLocalAutoSubs Sample.worldLoneForward (Some (Sample.roster None (Some [])))
  = localAutoSubs 22 (Sample.playersMap Sample.squad541) Sample.gw22 Sample.live541 1001
      (map Sample.slot [1; 2; 3; 4; 5; 6; 7; 8; 9; 10; 11; 12; 13; 14; 15]).
Proof.
  split.
  - apply (proj1 upstream_subs_authoritative Sample.worldLoneForward
             (Sample.roster None (Some [AutoSub.mk 14 10 1001 22]))
             (map Sample.slot [1; 2; 3; 4; 5; 6; 7; 8; 9; 10; 11; 12; 13; 14; 15])
             Sample.live541 Sample.gw22 (Sample.playersMap Sample.squad541));
      reflexivity.
  - apply (proj1 (proj2 upstream_subs_authoritative) Sample.worldLoneForward
             (Sample.roster None (Some []))
             (map Sample.slot [1; 2; 3; 4; 5; 6; 7; 8; 9; 10; 11; 12; 13; 14; 15])
             Sample.live541 Sample.gw22 (Sample.playersMap Sample.squad541));
      reflexivity.
Defined.

(** C1. The bench walk does not stop at a candidate whose fixture has not
    started. Midfielder 6 (match finished, 0 minutes) starts in a 4-4-2;
    no chip, no upstream list; the bench holds midfielder 13, whose match
    has not started, ahead of forward 14, who played. Forward 14 is
    confirmed for 6. *)
Theorem not_started_candidate_is_passed_over :
  Picks.active_chip (Sample.roster None None) = None ∧
  Picks.automatic_subs (Sample.roster None None) = None ∧
  Sample.playersMap (Sample.squad442 5) !! 13 = Some (Player.mk 13 5 Sample.MID "Palmer") ∧
  Sample.playersMap (Sample.squad442 5) !! 14 = Some (Player.mk 14 1 Sample.FWD "Nketiah") ∧
  fixtureStarted (teamFixture 22 Sample.gw22 5) = false ∧
  stat Stats.minutes (findElement Sample.live442 14) = 90 ∧
  calculateLocalAutoSubs Sample.worldWaiting (Some (Sample.roster None None))
  = [AutoSub.mk 14 6 1001 22].
Proof. repeat split; vm_compute; reflexivity. Qed.

(** C2. A bench player whose match is over and who did not play is
    confirmed all the same: bench midfielder 13 (match finished, 0 minutes)
    comes in for starter 6. *)
Theorem unused_bench_player_is_confirmed :
  fixtureFinished (teamFixture 22 Sample.gw22 7) = true ∧
  Sample.playersMap (Sample.squad442 7) !! 13 = Some (Player.mk 13 7 Sample.MID "Palmer") ∧
  stat Stats.minutes (findElement Sample.live442 13) = 0 ∧
  calculateLocalAutoSubs Sample.worldBenchUnused (Some (Sample.roster None None))
  = [AutoSub.mk 13 6 1001 22].
Proof. repeat split; vm_compute; reflexivity. Qed.

(** C5. The forward minimum is not enforced. In a 5-4-1 the only forward,
    10, sat out a finished match, so no forward is left in the formation
    count; bench midfielder 13 (played) is confirmed for him although
    forward 14 (played) is on the bench. *)
Theorem lone_forward_replaced_by_midfielder :
  countFormation 22 (Sample.playersMap Sample.squad541) Sample.gw22 Sample.live541
    (firstn 11 (map Sample.slot [1; 2; 3; 4; 5; 6; 7; 8; 9; 10; 11; 12; 13; 14; 15]))
  = {[ 1 := 1; 2 := 5; 3 := 4; 4 := 0 ]} ∧
  (Player.element_type <$> Sample.playersMap Sample.squad541 !! 10) = Some Sample.FWD ∧
  (Player.element_type <$> Sample.playersMap Sample.squad541 !! 13) = Some Sample.MID ∧
  (Player.element_type <$> Sample.playersMap Sample.squad541 !! 14) = Some Sample.FWD ∧
  0 < stat Stats.minutes (findElement Sample.live541 14) ∧
  calculateLocalAutoSubs Sample.worldLoneForward (Some (Sample.roster None None))
  = [AutoSub.mk 13 10 1001 22].
Proof. repeat split; vm_compute; reflexivity. Qed.

(** C6. The resolver does not look at the chip: under bench boost it still
    reports midfielder 13 for forward 10, and the scorer then treats
    starter 10 as substituted (not active). *)
Theorem bench_boost_still_substitutes :
  isBenchBoost (Picks.active_chip (Sample.roster (Some "bboost") None)) = true ∧
  calculateLocalAutoSubs Sample.worldLoneForward (Some (Sample.roster (Some "bboost") None))
  = [AutoSub.mk 13 10 1001 22] ∧
  map (fun ap => (Pick.element (ActivePick.pick ap), ActivePick.isActive ap))
      (List.filter (fun ap => negb (ActivePick.isActive ap))
         (activePicks true [AutoSub.mk 13 10 1001 22]
            (map Sample.slot [1; 2; 3; 4; 5; 6; 7; 8; 9; 10; 11; 12; 13; 14; 15])))
  = [(10, false)].
Proof. repeat split; vm_compute; reflexivity. Qed.

(** C3. Official and provisional bonus mix within one fixture. In fixture
    1-2 player 2 has an official bonus of 3 while player 7's official bonus
    is 0; player 7 leads on BPS, gets a provisional 3, and the scorer adds
    it: 6 + 3 for player 7, 18 for the two picks instead of 15. *)
Theorem provisional_bonus_added_beside_official :
  stat Stats.bonus (findElement Sample.liveMixedBonus 2) = 3 ∧
  stat Stats.bonus (findElement Sample.liveMixedBonus 7) = 0 ∧
  stat Stats.total_points (findElement Sample.liveMixedBonus 7) = 6 ∧
  (Player.team <$> Sample.playersMap (Sample.squad442 5) !! 2) = Some 1 ∧
  (Player.team <$> Sample.playersMap (Sample.squad442 5) !! 7) = Some 1 ∧
  calculateProvisionalBonus Sample.worldMixedBonus !! 7 = Some 3 ∧
  pickPoints Sample.liveMixedBonus (calculateProvisionalBonus Sample.worldMixedBonus) 7 = 9 ∧
  calculateLiveInfo Sample.worldMixedBonus (Some Sample.rosterMixedBonus)
  = Ok (LiveInfo.mk 2 (Some 11) None false 0 None 18).
Proof. repeat split; vm_compute; reflexivity. Qed.

(** * Further properties *)

(** ** The local resolution: bench usage and formation bounds *)

Lemma localAutoSubs_resolveLocally gw ps fs els entry allPicks :
  localAutoSubs gw ps fs els entry allPicks
  = autoSubs (resolveLocally gw ps fs els entry allPicks).
Proof. reflexivity. Qed.

Lemma substituteStarter_cases gw ps fs els entry bench st pick :
  substituteStarter gw ps fs els entry bench st pick = st ∨
  ∃ player benchPick benchPlayer,
    ps !! Pick.element pick = Some player ∧
    validReplacement gw ps fs (usedBenchPlayers st) (formationCount st) player benchPick
      = Some benchPlayer ∧
    In benchPick bench ∧
    substituteStarter gw ps fs els entry bench st pick
    = {| autoSubs := autoSubs st ++
           [AutoSub.mk (Pick.element benchPick) (Pick.element pick) entry gw];
         usedBenchPlayers := usedBenchPlayers st ∪ {[Pick.element benchPick]};
         formationCount := countIncr (formationCount st) (Player.element_type benchPlayer) |}.
Proof.
  unfold substituteStarter.
  destruct (ps !! Pick.element pick) as [player|]; [|by left].
  destruct (_ || _); [by left|].
  destruct (findReplacement _ _ _ _ _ _ _) as [[benchPick benchPlayer]|] eqn:Hf; [|by left].
  apply findReplacement_Some in Hf as [Hin Hv].
  right. exists player, benchPick, benchPlayer. done.
Qed.

Lemma substituteStarter_benchLedger gw ps fs els entry bench st pick :
  benchLedger st -> benchLedger (substituteStarter gw ps fs els entry bench st pick).
Proof.
  intros [Hnd Hused].
  destruct (substituteStarter_cases gw ps fs els entry bench st pick)
    as [->|(player & benchPick & benchPlayer & _ & Hv & _ & ->)]; [done|].
  apply validReplacement_Some in Hv as (Hfresh & _).
  unfold benchLedger. cbn [autoSubs usedBenchPlayers].
  rewrite map_app. cbn [map AutoSub.element_in]. split.
  - apply NoDup_app. split; [exact Hnd|]. split.
    + intros i Hi ->%list_elem_of_singleton. apply Hfresh, Hused.
      by apply list_elem_of_In.
    + apply NoDup_singleton.
  - intros i [Hi| [<-|[]]]%in_app_or; set_solver.
Qed.

Lemma resolveLocally_benchLedger gw ps fs els entry allPicks :
  benchLedger (resolveLocally gw ps fs els entry allPicks).
Proof.
  unfold resolveLocally.
  assert (benchLedger {| autoSubs := []; usedBenchPlayers := ∅;
            formationCount := countFormation gw ps fs els (firstn 11 allPicks) |}) as H0.
  { split; [constructor | intros i []]. }
  revert H0. generalize (firstn 11 allPicks) at 2 as starting.
  generalize ({| autoSubs := []; usedBenchPlayers := ∅;
            formationCount := countFormation gw ps fs els (firstn 11 allPicks) |}).
  intros st starting. revert st.
  induction starting as [|pick starting IH]; intros st Hst; [exact Hst|].
  cbn [fold_left]. apply IH. by apply substituteStarter_benchLedger.
Qed.

(** X2. No bench player comes in twice. *)
Theorem localAutoSubs_bench_used_once gw ps fs els entry allPicks :
  NoDup (map AutoSub.element_in (localAutoSubs gw ps fs els entry allPicks)).
Proof. apply (resolveLocally_benchLedger gw ps fs els entry allPicks). Qed.

(** X1. Every substitution of the local resolution takes out one of the
    first eleven picks, a known player with no minutes whose match is over,
    and brings in a bench pick, a known player whose match has started; a
    goalkeeper is exchanged for a goalkeeper and an outfield player for an
    outfield player. *)
Theorem localAutoSubs_sound gw ps fs els entry allPicks :
  Forall (localSub gw ps fs els allPicks) (localAutoSubs gw ps fs els entry allPicks).
Proof. apply localAutoSubs_localSub. Qed.

Lemma localAutoSubs_in_bench gw ps fs els entry allPicks :
  incl (map AutoSub.element_in (localAutoSubs gw ps fs els entry allPicks))
       (map Pick.element (skipn 11 allPicks)).
Proof.
  intros i (sub & <- & Hsub)%in_map_iff.
  pose proof (localAutoSubs_localSub gw ps fs els entry allPicks) as H.
  rewrite List.Forall_forall in H.
  destruct (H sub Hsub) as (_ & benchPick & _ & _ & _ & Hb & _ & -> & _).
  by apply in_map.
Qed.

(** X3. The local resolution makes at most as many substitutions as there
    are bench picks (four for a roster of fifteen, none for a roster of
    eleven or fewer). *)
Theorem localAutoSubs_at_most_bench gw ps fs els entry allPicks :
  (length (localAutoSubs gw ps fs els entry allPicks)
   <= length (skipn 11 allPicks))%nat.
Proof.
  rewrite <- (length_map AutoSub.element_in), <- (length_map Pick.element (skipn 11 allPicks)).
  apply NoDup_incl_length.
  - apply NoDup_ListNoDup.
    apply (resolveLocally_benchLedger gw ps fs els entry allPicks).
  - apply localAutoSubs_in_bench.
Qed.

Lemma countGt_countIncr_ne fc k j n :
  k <> j -> countGt (countIncr fc k) j n = countGt fc j n.
Proof. intros Hne. unfold countGt, countIncr. by rewrite lookup_insert_ne. Qed.

Lemma validReplacement_withinMaxima gw ps fs used fc player benchPick benchPlayer :
  validReplacement gw ps fs used fc player benchPick = Some benchPlayer ->
  withinMaxima fc ->
  withinMaxima (countIncr fc (Player.element_type benchPlayer)).
Proof.
  intros Hv [Hm Hf]. pose proof Hv as Hv'.
  apply validReplacement_Some in Hv' as (_ & _ & _ & Hgk).
  unfold validReplacement in Hv. case_decide; [discriminate|].
  destruct (ps !! Pick.element benchPick) as [bp|]; [|discriminate].
  destruct (fixtureStarted _); [|discriminate]. cbn [negb] in Hv.
  destruct (Z.eqb_spec (Player.element_type player) 1) as [Hp|Hp].
  - (* goalkeeper for goalkeeper: the outfield counts are untouched *)
    symmetry in Hgk. apply Z.eqb_eq in Hgk.
    split; rewrite Hgk, countGt_countIncr_ne; done.
  - cbn [negb andb] in Hv.
    destruct (Player.element_type bp =? 1); [discriminate|].
    destruct (_ || _) eqn:Hc; [discriminate|]. injection Hv as <-.
    apply orb_false_iff in Hc as [Hc Hc4]. apply orb_false_iff in Hc as [_ Hc3].
    by split.
Qed.

Lemma substituteStarter_withinMaxima gw ps fs els entry bench st pick :
  withinMaxima (formationCount st) ->
  withinMaxima (formationCount (substituteStarter gw ps fs els entry bench st pick)).
Proof.
  intros Hst.
  destruct (substituteStarter_cases gw ps fs els entry bench st pick)
    as [->|(player & benchPick & benchPlayer & _ & Hv & _ & ->)]; [done|].
  cbn [formationCount]. by eapply validReplacement_withinMaxima.
Qed.

(** X5. If the starters who need no substitute count at most 5 midfielders
    and 3 forwards, so does the formation after the local resolution: no
    substitution takes the count past either maximum. *)
Theorem resolveLocally_withinMaxima gw ps fs els entry allPicks :
  withinMaxima (countFormation gw ps fs els (firstn 11 allPicks)) ->
  withinMaxima (formationCount (resolveLocally gw ps fs els entry allPicks)).
Proof.
  unfold resolveLocally. intros H0.
  assert (withinMaxima (formationCount
            {| autoSubs := []; usedBenchPlayers := ∅;
               formationCount := countFormation gw ps fs els (firstn 11 allPicks) |}))
    as Hst by exact H0.
  clear H0. revert Hst.
  generalize ({| autoSubs := []; usedBenchPlayers := ∅;
            formationCount := countFormation gw ps fs els (firstn 11 allPicks) |}).
  generalize (firstn 11 allPicks) as starting.
  induction starting as [|pick starting IH]; intros st Hst; [exact Hst|].
  cbn [fold_left]. apply IH. by apply substituteStarter_withinMaxima.
Qed.

Lemma resolveLocally_withinMaxima_witness :
  withinMaxima (formationCount
    (resolveLocally 22 (Sample.playersMap Sample.squad541) Sample.gw22
       Sample.live541 1001
       (map Sample.slot [1; 2; 3; 4; 5; 6; 7; 8; 9; 10; 11; 12; 13; 14; 15]))).
Proof.
  apply resolveLocally_withinMaxima. split; vm_compute; reflexivity.
Defined.

(** X4. While fewer than three defenders are counted, the bench walk for an
    outfield starter ends on a defender or on nobody. *)
Theorem findReplacement_defender gw ps fs used fc player bench benchPick benchPlayer :
  findReplacement gw ps fs used fc player bench = Some (benchPick, benchPlayer) ->
  Player.element_type player <> 1 ->
  countLt fc 2 3 = true ->
  Player.element_type benchPlayer = 2.
Proof.
  intros [_ Hv]%findReplacement_Some Hgk Hlt.
  eapply validReplacement_defender; eauto.
Qed.

Lemma findReplacement_defender_witness :
  Player.element_type (Player.mk 15 2 Sample.DEF "Dalot") = 2.
Proof.
  apply (findReplacement_defender 22 (Sample.playersMap (Sample.squad442 7)) Sample.gw22
           ∅ {[ 1 := 1; 2 := 2; 3 := 4; 4 := 2 ]}
           (Player.mk 5 1 Sample.DEF "White")
           (map Sample.slot [12; 13; 14; 15])
           (Sample.slot 15) (Player.mk 15 2 Sample.DEF "Dalot")).
  - vm_compute. reflexivity.
  - vm_compute. discriminate.
  - vm_compute. reflexivity.
Defined.

(** ** One fixture's provisional bonus, read per player *)

Lemma applyWrites_cons (m : gmap Z Z) x w :
  applyWrites m (x :: w) = applyWrites (<[x.1 := x.2]> m) w.
Proof. reflexivity. Qed.

Lemma applyWrites_lookup_notin w : forall (m : gmap Z Z) i,
  ~ In i (map fst w) -> applyWrites m w !! i = m !! i.
Proof.
  induction w as [|[j b] w IH]; intros m i Hi; [reflexivity|].
  rewrite applyWrites_cons, IH.
  - cbn. rewrite lookup_insert_ne; [reflexivity|]. intros ->. apply Hi. by left.
  - intros Hin. apply Hi. by right.
Qed.

Lemma applyWrites_lookup_in w : forall (m : gmap Z Z) i b,
  List.NoDup (map fst w) -> In (i, b) w -> applyWrites m w !! i = Some b.
Proof.
  induction w as [|[j c] w IH]; intros m i b Hnd Hin; [destruct Hin|].
  inversion Hnd as [|? ? Hj Hnd']; subst. rewrite applyWrites_cons.
  destruct Hin as [[= -> ->]|Hin].
  - rewrite applyWrites_lookup_notin; [|exact Hj]. apply lookup_insert_eq.
  - by apply IH.
Qed.

Lemma awardBonus_writes l m :
  awardBonus (js_sort bpsDescending l) m =
  applyWrites m
    (map (fun p => (BpsEntry.id p, 4 - bpsRank l p))
         (List.filter (fun p => bpsRank l p <=? 3) (js_sort bpsDescending l))).
Proof.
  unfold awardBonus.
  pose proof (awardLoop_writes _ _ 0 m (bpsDescending_sorted l) (le_n _)) as H.
  change (1 + 0) with 1 in H. rewrite H. clear H.
  f_equal. erewrite filter_ext.
  - apply map_ext. intros p.
    by rewrite (bpsRank_Permutation _ _ p (js_sort_Permutation bpsDescending l)).
  - intros p. cbn beta.
    by rewrite (bpsRank_Permutation _ _ p (js_sort_Permutation bpsDescending l)).
Qed.

Lemma NoDup_map_injective {A B} (f : A -> B) l x y :
  List.NoDup (map f l) -> In x l -> In y l -> f x = f y -> x = y.
Proof.
  induction l as [|a l IH]; intros Hnd Hx Hy Hf; [destruct Hx|].
  inversion Hnd as [|? ? Ha Hnd']; subst.
  destruct Hx as [->|Hx], Hy as [->|Hy]; try done.
  - exfalso. apply Ha. rewrite Hf. by apply in_map.
  - exfalso. apply Ha. rewrite <- Hf. by apply in_map.
  - by apply IH.
Qed.

Lemma NoDup_map_filter {A B} (f : A -> B) (c : A -> bool) l :
  List.NoDup (map f l) -> List.NoDup (map f (List.filter c l)).
Proof.
  induction l as [|a l IH]; intros Hnd; [constructor|].
  inversion Hnd as [|? ? Ha Hnd']; subst. cbn [List.filter].
  destruct (c a); [|by apply IH].
  cbn [map]. constructor; [|by apply IH].
  intros (x & Hfx & Hx%filter_In)%in_map_iff. apply Ha.
  rewrite <- Hfx. apply in_map. tauto.
Qed.

Lemma awardBonus_rank (l : list BpsEntry.t) (m : gmap Z Z) (p : BpsEntry.t) :
  List.NoDup (map BpsEntry.id l) -> In p l ->
  awardBonus (js_sort bpsDescending l) m !! BpsEntry.id p
  = if bpsRank l p <=? 3 then Some (4 - bpsRank l p) else m !! BpsEntry.id p.
Proof.
  intros Hnd Hp. rewrite awardBonus_writes.
  pose proof (js_sort_Permutation bpsDescending l) as Hperm.
  assert (List.NoDup (map BpsEntry.id (js_sort bpsDescending l))) as Hnds.
  { eapply Permutation_NoDup; [|exact Hnd].
    apply Permutation_map. by symmetry. }
  assert (In p (js_sort bpsDescending l)) as Hps.
  { eapply Permutation_in; [symmetry; exact Hperm | exact Hp]. }
  destruct (bpsRank l p <=? 3) eqn:Hr.
  - apply applyWrites_lookup_in.
    + rewrite map_map. cbn [fst]. by apply NoDup_map_filter.
    + apply in_map_iff. exists p. split; [reflexivity|].
      apply filter_In. by split.
  - apply applyWrites_lookup_notin.
    rewrite map_map. cbn [fst].
    intros (q & Hid & [Hq Hrq]%filter_In)%in_map_iff.
    assert (q = p) as -> by (eapply NoDup_map_injective; eauto).
    congruence.
Qed.

(** X6. When the players of a fixture have distinct ids, one allocation
    leaves player [p] with [4 - rank] if its rank (one more than the number
    of players with a strictly higher BPS) is at most 3, and with whatever
    the map held before otherwise. *)
Theorem awardBonus_lookup (l : list BpsEntry.t) (m : gmap Z Z) (p : BpsEntry.t) :
  List.NoDup (map BpsEntry.id l) -> In p l ->
  awardBonus (js_sort bpsDescending l) m !! BpsEntry.id p
  = if bpsRank l p <=? 3 then Some (4 - bpsRank l p) else m !! BpsEntry.id p.
Proof.
  intros Hnd Hp. rewrite (awardBonus_rank l m p Hnd Hp).
  by destruct (bpsRank l p <=? 3).
Qed.

Lemma awardBonus_lookup_witness :
  awardBonus (js_sort bpsDescending Sample.bps6) ∅ !! 4
  = if bpsRank Sample.bps6 (BpsEntry.mk 4 8 "D") <=? 3
    then Some (4 - bpsRank Sample.bps6 (BpsEntry.mk 4 8 "D"))
    else (∅ : gmap Z Z) !! 4.
Proof.
  apply (awardBonus_lookup Sample.bps6 ∅ (BpsEntry.mk 4 8 "D")).
  - vm_compute. repeat constructor; simpl; lia.
  - vm_compute. tauto.
Defined.

(** X8. An allocation writes only to the ids of the fixture's players:
    every other entry of the map is left as it was. *)
Theorem awardBonus_frame (l : list BpsEntry.t) (m : gmap Z Z) (i : Z) :
  ~ In i (map BpsEntry.id l) ->
  awardBonus (js_sort bpsDescending l) m !! i = m !! i.
Proof.
  intros Hi. rewrite awardBonus_writes. apply applyWrites_lookup_notin.
  rewrite map_map. cbn [fst].
  intros (q & Hid & [Hq _]%filter_In)%in_map_iff. apply Hi.
  rewrite <- Hid. apply in_map.
  eapply Permutation_in; [apply js_sort_Permutation | exact Hq].
Qed.

Lemma awardBonus_frame_witness :
  awardBonus (js_sort bpsDescending Sample.bps6) {[ 77 := 2 ]} !! 77
  = ({[ 77 := 2 ]} : gmap Z Z) !! 77.
Proof.
  apply (awardBonus_frame Sample.bps6 {[ 77 := 2 ]} 77).
  vm_compute. intuition discriminate.
Defined.

Lemma filter_length_le {A} (c d : A -> bool) l :
  (forall x, c x = true -> d x = true) ->
  (length (List.filter c l) <= length (List.filter d l))%nat.
Proof.
  intros Hcd. induction l as [|x l IH]; [reflexivity|].
  cbn [List.filter]. destruct (c x) eqn:Hc.
  - rewrite (Hcd x Hc). simpl. lia.
  - destruct (d x); simpl; lia.
Qed.

Lemma bpsRank_antitone l p q :
  BpsEntry.bps q <= BpsEntry.bps p -> bpsRank l p <= bpsRank l q.
Proof.
  intros Hle. unfold bpsRank.
  pose proof (filter_length_le (fun x => BpsEntry.bps p <? BpsEntry.bps x)
                (fun x => BpsEntry.bps q <? BpsEntry.bps x) l) as H.
  cbn beta in H. specialize (H ltac:(intros x Hx%Z.ltb_lt; apply Z.ltb_lt; lia)).
  lia.
Qed.

Lemma bpsRank_pos l p : 1 <= bpsRank l p.
Proof. unfold bpsRank. lia. Qed.

(** X7. Within one fixture (distinct ids), a player never gets less
    provisional bonus than a player with a lower or equal BPS; players
    level on BPS get the same; and the bonus is between 0 and 3. *)
Theorem fixtureBonus_monotone (l : list BpsEntry.t) (p q : BpsEntry.t) :
  List.NoDup (map BpsEntry.id l) -> In p l -> In q l ->
  BpsEntry.bps q <= BpsEntry.bps p ->
  0 <= fixtureBonus l q <= fixtureBonus l p ∧ fixtureBonus l p <= 3.
Proof.
  intros Hnd Hp Hq Hle. unfold fixtureBonus.
  rewrite !awardBonus_rank by done. rewrite !lookup_empty.
  pose proof (bpsRank_antitone l p q Hle).
  pose proof (bpsRank_pos l p). pose proof (bpsRank_pos l q).
  destruct (Z.leb_spec (bpsRank l p) 3), (Z.leb_spec (bpsRank l q) 3);
    cbn; lia.
Qed.

Lemma fixtureBonus_monotone_witness :
  0 <= fixtureBonus Sample.bps6 (BpsEntry.mk 6 5 "F")
    <= fixtureBonus Sample.bps6 (BpsEntry.mk 3 8 "C") ∧
  fixtureBonus Sample.bps6 (BpsEntry.mk 3 8 "C") <= 3.
Proof.
  apply (fixtureBonus_monotone Sample.bps6 (BpsEntry.mk 3 8 "C") (BpsEntry.mk 6 5 "F")).
  - vm_compute. repeat constructor; simpl; lia.
  - vm_compute. tauto.
  - vm_compute. tauto.
  - vm_compute. discriminate.
Defined.

(** ** calculateScores: one row per manager *)





(** ** calculatePositionChanges *)

Lemma setPositions_frame sorted : forall idx positions k,
  ~ In k (map entryOf sorted) ->
  setPositions idx sorted positions !! k = positions !! k.
Proof.
  induction sorted as [|m rest IH]; intros idx positions k Hk; [reflexivity|].
  cbn [setPositions]. rewrite IH.
  - apply lookup_insert_ne. intros Heq. apply Hk. left. exact Heq.
  - intros Hin. apply Hk. by right.
Qed.

(** Every manager of the sorted list has a position, within the range the
    list spans. *)
Lemma setPositions_defined sorted : forall idx positions k,
  In k (map entryOf sorted) ->
  ∃ v, setPositions idx sorted positions !! k = Some v ∧
       idx + 1 <= v <= idx + Z.of_nat (length sorted).
Proof.
  induction sorted as [|m rest IH]; intros idx positions k Hk; [destruct Hk|].
  cbn [setPositions].
  destruct (in_dec Z.eq_dec k (map entryOf rest)) as [Hin|Hout].
  - destruct (IH (idx + 1) (<[entryOf m := idx + 1]> positions) k Hin) as (v & Hv & Hr).
    exists v. split; [exact Hv|]. cbn [length]. lia.
  - destruct Hk as [<-|Hk]; [|done].
    exists (idx + 1). rewrite setPositions_frame by done.
    split; [apply lookup_insert_eq|]. cbn [length]. lia.
Qed.

(** With distinct entries the positions along the sorted list are
    [idx + 1], [idx + 2], ... *)
Lemma setPositions_along sorted : forall idx positions,
  List.NoDup (map entryOf sorted) ->
  map (fun s => setPositions idx sorted positions !! entryOf s) sorted
  = map Some (positionsFrom idx (length sorted)).
Proof.
  induction sorted as [|m rest IH]; intros idx positions Hnd; [reflexivity|].
  inversion Hnd as [|? ? Hm Hnd']; subst.
  cbn [setPositions map length positionsFrom]. f_equal.
  - rewrite setPositions_frame by done. apply lookup_insert_eq.
  - by apply IH.
Qed.

Lemma compareScores_refl_le field a b :
  0 < compareScores field a b -> compareScores field b a <= 0.
Proof.
  unfold compareScores.
  destruct (Z.eqb_spec (field b) (field a)) as [He|He];
    destruct (Z.eqb_spec (field a) (field b)); try congruence; simpl; [|lia].
  destruct (Z.eqb_spec (Score.gameweekPoints b) (Score.gameweekPoints a));
    destruct (Z.eqb_spec (Score.gameweekPoints a) (Score.gameweekPoints b));
    try congruence; simpl; lia.
Qed.

Lemma compareScores_trans field a b c :
  compareScores field a b <= 0 -> compareScores field b c <= 0 ->
  compareScores field a c <= 0.
Proof.
  unfold compareScores.
  destruct (Z.eqb_spec (field b) (field a)), (Z.eqb_spec (field c) (field b)),
           (Z.eqb_spec (field c) (field a)); simpl; try lia;
  destruct (Z.eqb_spec (Score.gameweekPoints b) (Score.gameweekPoints a)),
           (Z.eqb_spec (Score.gameweekPoints c) (Score.gameweekPoints b)),
           (Z.eqb_spec (Score.gameweekPoints c) (Score.gameweekPoints a));
    simpl; lia.
Qed.

Lemma currentSorted_sorted field scores :
  StronglySorted (fun a b => compareScores field a b <= 0)
                 (js_sort (compareScores field) scores).
Proof.
  apply js_sort_StronglySorted.
  - auto.
  - apply compareScores_refl_le.
  - apply compareScores_trans.
Qed.

Lemma positionsOf_rows (sorted scores : list Score.t) (s : Score.t) :
  Permutation sorted scores -> In s scores ->
  ∃ v, positionsOf sorted !! entryOf s = Some v ∧ 1 <= v <= Z.of_nat (length scores).
Proof.
  intros Hperm Hs. unfold positionsOf.
  destruct (setPositions_defined sorted 0 ∅ (entryOf s)) as (v & Hv & Hr).
  - apply in_map. eapply Permutation_in; [symmetry; exact Hperm | exact Hs].
  - exists v. split; [exact Hv|]. rewrite <- (Permutation_length Hperm). lia.
Qed.

(** X11. Every row [calculatePositionChanges] returns keeps its manager,
    in the input order, and carries a current and a previous position
    between 1 and the number of managers and their difference as the
    movement; nothing is undefined. *)
Theorem calculatePositionChanges_defined (scores : list Score.t) :
  map Ranked.score (calculatePositionChanges scores) = scores ∧
  Forall (fun r => ∃ cur prev,
            Ranked.currentPosition r = Some cur ∧
            Ranked.previousPosition r = Some prev ∧
            Ranked.positionChange r = Some (prev - cur) ∧
            1 <= cur <= Z.of_nat (length scores) ∧
            1 <= prev <= Z.of_nat (length scores))
         (calculatePositionChanges scores).
Proof.
  unfold calculatePositionChanges. split.
  - rewrite map_map. cbn [Ranked.score]. apply map_id.
  - apply List.Forall_forall. intros r (s & <- & Hs)%in_map_iff.
    destruct (positionsOf_rows (js_sort (compareScores Score.monthlyPoints) scores)
                scores s (js_sort_Permutation _ _) Hs) as (cur & Hcur & Hrc).
    destruct (positionsOf_rows (js_sort comparePrevious scores)
                scores s (js_sort_Permutation _ _) Hs) as (prev & Hprev & Hrp).
    exists cur, prev. cbn [Ranked.currentPosition Ranked.previousPosition
                           Ranked.positionChange].
    fold (entryOf s). rewrite Hcur, Hprev. done.
Qed.

Lemma setPositions_lookup_index sorted : forall idx positions (i : nat) s,
  List.NoDup (map entryOf sorted) -> sorted !! i = Some s ->
  setPositions idx sorted positions !! entryOf s = Some (idx + Z.of_nat i + 1).
Proof.
  induction sorted as [|m rest IH]; intros idx positions i s Hnd Hi; [done|].
  inversion Hnd as [|? ? Hm Hnd']; subst. cbn [setPositions].
  destruct i as [|i]; cbn in Hi.
  - injection Hi as ->. rewrite setPositions_frame by done.
    rewrite lookup_insert_eq. f_equal. lia.
  - rewrite (IH _ _ i s Hnd' Hi). f_equal. lia.
Qed.

Lemma NoDup_entries_sorted cmp (scores : list Score.t) :
  List.NoDup (map entryOf scores) -> List.NoDup (map entryOf (js_sort cmp scores)).
Proof.
  intros Hnd. eapply Permutation_NoDup; [|exact Hnd].
  apply Permutation_map. symmetry. apply js_sort_Permutation.
Qed.

Lemma positions_Permutation cmp (scores : list Score.t) :
  List.NoDup (map entryOf scores) ->
  Permutation (map (fun s => positionsOf (js_sort cmp scores) !! entryOf s) scores)
              (map Some (positionsFrom 0 (length scores))).
Proof.
  intros Hnd.
  rewrite <- (js_sort_length cmp scores).
  rewrite <- (setPositions_along (js_sort cmp scores) 0 ∅)
    by by apply NoDup_entries_sorted.
  apply Permutation_map. symmetry. apply js_sort_Permutation.
Qed.

(** X12. When the managers have distinct entries, the current positions of
    the rows are the numbers 1 to n, each once, and so are the previous
    positions. *)
Theorem calculatePositionChanges_positions (scores : list Score.t) :
  List.NoDup (map entryOf scores) ->
  Permutation (map Ranked.currentPosition (calculatePositionChanges scores))
              (map Some (positionsFrom 0 (length scores))) ∧
  Permutation (map Ranked.previousPosition (calculatePositionChanges scores))
              (map Some (positionsFrom 0 (length scores))).
Proof.
  intros Hnd. unfold calculatePositionChanges. rewrite !map_map.
  cbn [Ranked.currentPosition Ranked.previousPosition].
  split; by apply positions_Permutation.
Qed.

Lemma sumZ_Permutation l l' : Permutation l l' -> sumZ l = sumZ l'.
Proof.
  unfold sumZ. induction 1; cbn [foldr]; lia.
Qed.

Lemma sumZ_map_sub {A} (f g : A -> Z) l :
  sumZ (map (fun x => f x - g x) l) = sumZ (map f l) - sumZ (map g l).
Proof. unfold sumZ. induction l; cbn [map foldr]; lia. Qed.

Lemma sumZ_positions cmp (scores : list Score.t) :
  List.NoDup (map entryOf scores) ->
  sumZ (map (fun s => default 0 (positionsOf (js_sort cmp scores) !! entryOf s)) scores)
  = sumZ (positionsFrom 0 (length scores)).
Proof.
  intros Hnd.
  pose proof (positions_Permutation cmp scores Hnd) as Hperm.
  apply (Permutation_map (default 0)) in Hperm.
  rewrite !map_map in Hperm. cbn [default] in Hperm. rewrite map_id in Hperm.
  by apply sumZ_Permutation.
Qed.

(** X13. When the managers have distinct entries, the movements of all
    rows add up to 0: what some managers climb, others drop. *)
Theorem calculatePositionChanges_zero_sum (scores : list Score.t) :
  List.NoDup (map entryOf scores) ->
  sumZ (map movement (calculatePositionChanges scores)) = 0.
Proof.
  intros Hnd. unfold calculatePositionChanges. rewrite map_map.
  unfold movement. cbn [Ranked.positionChange].
  rewrite (map_ext_in _
    (fun s => default 0 (positionsOf (js_sort comparePrevious scores) !! entryOf s)
            - default 0 (positionsOf (js_sort (compareScores Score.monthlyPoints) scores)
                           !! entryOf s))).
  - rewrite sumZ_map_sub, !sumZ_positions by done. lia.
  - intros s Hs.
    destruct (positionsOf_rows (js_sort (compareScores Score.monthlyPoints) scores)
                scores s (js_sort_Permutation _ _) Hs) as (cur & Hcur & _).
    destruct (positionsOf_rows (js_sort comparePrevious scores)
                scores s (js_sort_Permutation _ _) Hs) as (prev & Hprev & _).
    fold (entryOf s). by rewrite Hcur, Hprev.
Qed.

Lemma StronglySorted_lookup_lt {A} (R : A -> A -> Prop) l : forall (i j : nat) x y,
  StronglySorted R l -> l !! i = Some x -> l !! j = Some y -> (i < j)%nat -> R x y.
Proof.
  induction l as [|a l IH]; intros i j x y Hs Hi Hj Hlt; [done|].
  apply StronglySorted_inv in Hs as [Hs Ha].
  destruct j as [|j]; [lia|]. cbn in Hj.
  destruct i as [|i]; cbn in Hi.
  - injection Hi as ->. rewrite List.Forall_forall in Ha. apply Ha.
    apply list_elem_of_In. by eapply list_elem_of_lookup_2.
  - eapply IH; eauto. lia.
Qed.

(** X14. When the managers have distinct entries, a row with more monthly
    points than another holds a better (smaller) current position. *)
Theorem calculatePositionChanges_order (scores : list Score.t) (ra rb : Ranked.t) :
  List.NoDup (map entryOf scores) ->
  In ra (calculatePositionChanges scores) -> In rb (calculatePositionChanges scores) ->
  Score.monthlyPoints (Ranked.score rb) < Score.monthlyPoints (Ranked.score ra) ->
  ∃ ca cb,
    Ranked.currentPosition ra = Some ca ∧ Ranked.currentPosition rb = Some cb ∧
    ca < cb.
Proof.
  intros Hnd (a & <- & Ha)%in_map_iff (b & <- & Hb)%in_map_iff Hlt.
  cbn [Ranked.score Ranked.currentPosition] in *.
  set (cs := js_sort (compareScores Score.monthlyPoints) scores).
  assert (a ∈ cs ∧ b ∈ cs) as [Hac Hbc].
  { split; apply list_elem_of_In;
      (eapply Permutation_in; [symmetry; apply js_sort_Permutation|]; done). }
  apply list_elem_of_lookup in Hac as [i Hi]. apply list_elem_of_lookup in Hbc as [j Hj].
  pose proof (NoDup_entries_sorted (compareScores Score.monthlyPoints) scores Hnd) as Hnds.
  pose proof (setPositions_lookup_index cs 0 ∅ i a Hnds Hi) as Hpa.
  pose proof (setPositions_lookup_index cs 0 ∅ j b Hnds Hj) as Hpb.
  exists (0 + Z.of_nat i + 1), (0 + Z.of_nat j + 1).
  split; [exact Hpa|]. split; [exact Hpb|].
  assert (i < j)%nat; [|lia].
  destruct (Nat.lt_trichotomy i j) as [|[->|Hji]]; [done| |].
  - rewrite Hi in Hj. injection Hj as ->. lia.
  - pose proof (StronglySorted_lookup_lt _ cs j i b a
                  (currentSorted_sorted _ scores) Hj Hi Hji) as Hc.
    cbn beta in Hc. unfold compareScores in Hc.
    destruct (Z.eqb_spec (Score.monthlyPoints a) (Score.monthlyPoints b));
      simpl in Hc; lia.
Qed.

Lemma calculatePositionChanges_positions_witness :
  Permutation (map Ranked.currentPosition (calculatePositionChanges League.table))
              (map Some (positionsFrom 0 (length League.table))) ∧
  Permutation (map Ranked.previousPosition (calculatePositionChanges League.table))
              (map Some (positionsFrom 0 (length League.table))).
Proof.
  apply (calculatePositionChanges_positions League.table).
  vm_compute. repeat constructor; simpl; lia.
Defined.

Lemma calculatePositionChanges_zero_sum_witness :
  sumZ (map movement (calculatePositionChanges League.table)) = 0.
Proof.
  apply (calculatePositionChanges_zero_sum League.table).
  vm_compute. repeat constructor; simpl; lia.
Defined.

Lemma calculatePositionChanges_order_witness :
  ∃ ca cb,
    Ranked.currentPosition (Ranked.mk (League.row 2 1100 60 100 40) (Some 1) (Some 3) (Some 2))
      = Some ca ∧
    Ranked.currentPosition (Ranked.mk (League.row 3 900 40 90 50) (Some 3) (Some 2) (Some (-1)))
      = Some cb ∧
    ca < cb.
Proof.
  apply (calculatePositionChanges_order League.table).
  - vm_compute. repeat constructor; simpl; lia.
  - vm_compute. tauto.
  - vm_compute. tauto.
  - vm_compute. reflexivity.
Defined.

(** ** renderLeaderboard: the rank column *)

Lemma sort_insert_map {A B} (h : A -> B) (cmpA : A -> A -> Z) (cmpB : B -> B -> Z) x l :
  (forall x y, cmpB (h x) (h y) = cmpA x y) ->
  sort_insert cmpB (h x) (map h l) = map h (sort_insert cmpA x l).
Proof.
  intros Hc. induction l as [|y l IH]; [reflexivity|].
  cbn [map sort_insert]. rewrite Hc. destruct (cmpA x y <=? 0); [reflexivity|].
  cbn [map]. by rewrite IH.
Qed.

Lemma js_sort_map {A B} (h : A -> B) (cmpA : A -> A -> Z) (cmpB : B -> B -> Z) l :
  (forall x y, cmpB (h x) (h y) = cmpA x y) ->
  js_sort cmpB (map h l) = map h (js_sort cmpA l).
Proof.
  intros Hc. induction l as [|x l IH]; [reflexivity|].
  cbn [map js_sort]. rewrite IH. by apply sort_insert_map.
Qed.




(** ** calculateLiveInfo: the scoring loop in closed form *)

Lemma forEachM_tally_closed app els provisionalBonus aps : forall acc acc',
  forEachM (tallyPick app els provisionalBonus) aps acc = Ok acc' ->
  t_played acc' = t_played acc
                  + Z.of_nat (length (List.filter (countsAndPlayed els) aps)) ∧
  t_livePoints acc' = t_livePoints acc
    + sumZ (map (fun ap => pickPoints els provisionalBonus (Pick.element (ActivePick.pick ap))
                           * Pick.multiplier (ActivePick.pick ap))
                (List.filter (countsAndPlayed els) aps)).
Proof.
  induction aps as [|ap aps IH]; intros acc acc'; cbn [forEachM].
  - intros [= <-]. cbn. lia.
  - destruct (tallyPick app els provisionalBonus acc ap) as [acc1|] eqn:Ht;
      [|discriminate].
    cbn [mbind result_bind]. intros Hrest. apply IH in Hrest as [Hp Hl].
    rewrite Hp, Hl. clear Hp Hl IH.
    unfold tallyPick in Ht. cbn [List.filter].
    pose proof (eq_refl : countsAndPlayed els ap
                  = ActivePick.isActive ap
                    && hasPlayed els (Pick.element (ActivePick.pick ap))) as Hc.
    rewrite Hc. clear Hc.
    fold (hasPlayed els (Pick.element (ActivePick.pick ap))) in Ht.
    destruct (ActivePick.isActive ap); cbn [negb andb] in *.
    + destruct (hasPlayed els (Pick.element (ActivePick.pick ap)));
        destruct (Pick.is_captain (ActivePick.pick ap));
        try destruct (players app); try discriminate;
        injection Ht as <-; cbn [t_played t_livePoints map length];
        unfold sumZ; cbn [foldr]; lia.
    + injection Ht as <-. lia.
Qed.

Lemma calculateLiveInfo_closed app picks allPicks els info :
  Picks.picks picks = Some allPicks -> liveData app = Some els ->
  calculateLiveInfo app (Some picks) = Ok info ->
  let aps := activePicks (isBenchBoost (Picks.active_chip picks))
                         (calculateLocalAutoSubs app (Some picks)) allPicks in
  LiveInfo.played info = Z.of_nat (length (List.filter (countsAndPlayed els) aps)) ∧
  LiveInfo.livePoints info =
    sumZ (map (fun ap => pickPoints els (calculateProvisionalBonus app)
                           (Pick.element (ActivePick.pick ap))
                         * Pick.multiplier (ActivePick.pick ap))
              (List.filter (countsAndPlayed els) aps)) ∧
  LiveInfo.maxPlayers info
    = Some (if isBenchBoost (Picks.active_chip picks) then 15 else 11).
Proof.
  intros Hp Hels. unfold calculateLiveInfo. rewrite Hp, Hels.
  destruct (forEachM _ _ _) as [tally|] eqn:Hf; [|discriminate].
  cbn [mbind result_bind]. intros [= <-].
  apply forEachM_tally_closed in Hf as [Hpl Hlp].
  cbn [LiveInfo.played LiveInfo.livePoints LiveInfo.maxPlayers t_played t_livePoints] in *.
  rewrite Hpl, Hlp. repeat split; lia.
Qed.

Lemma activePicks_split benchBoost subs allPicks :
  activePicks benchBoost subs allPicks
  = map (flagStarter subs) (firstn 11 allPicks)
    ++ map (flagBench benchBoost subs) (skipn 11 allPicks).
Proof.
  unfold activePicks.
  rewrite <- (firstn_skipn 11 allPicks) at 1. rewrite imap_app. f_equal.
  - change (map (flagStarter subs) (firstn 11 allPicks))
      with (const (flagStarter subs) 0%nat <$> firstn 11 allPicks).
    rewrite <- (imap_const (flagStarter subs)).
    apply imap_ext. intros i pick Hi. apply lookup_lt_Some in Hi.
    pose proof (firstn_le_length 11 allPicks).
    unfold flagStarter, const.
    destruct (Nat.ltb_spec i 11); [|lia].
    destruct (Nat.leb_spec 11 i); [lia|].
    by rewrite andb_false_r, orb_false_r.
  - change (map (flagBench benchBoost subs) (skipn 11 allPicks))
      with (const (flagBench benchBoost subs) 0%nat <$> skipn 11 allPicks).
    rewrite <- (imap_const (flagBench benchBoost subs)).
    apply imap_ext. intros i pick Hi. apply lookup_lt_Some in Hi.
    rewrite length_skipn in Hi.
    assert (length (firstn 11 allPicks) = 11%nat) as ->
      by (rewrite length_firstn; lia).
    unfold flagBench, const.
    destruct (Nat.ltb_spec (11 + i) 11); [lia|].
    destruct (Nat.leb_spec 11 (11 + i)); [|lia].
    by rewrite andb_true_r.
Qed.

Lemma filter_length_partition {A} (c : A -> bool) l :
  (length (List.filter c l) + length (List.filter (fun x => negb (c x)) l))%nat
  = length l.
Proof.
  induction l as [|x l IH]; [reflexivity|].
  cbn [List.filter]. destruct (c x); cbn [negb length]; lia.
Qed.

(** Counting the members of a duplicate-free key list among items with
    distinct keys. *)
Lemma filter_keys_length {A} (key : A -> Z) (keys : list Z) (l : list A) :
  List.NoDup (map key l) -> List.NoDup keys -> incl keys (map key l) ->
  length (List.filter (fun x => bool_decide (key x ∈ (list_to_set keys : gset Z))) l)
  = length keys.
Proof.
  intros Hl Hk Hincl.
  rewrite <- (length_map key).
  apply Permutation_length, NoDup_Permutation.
  - apply NoDup_ListNoDup. by apply NoDup_map_filter.
  - by apply NoDup_ListNoDup.
  - intros k. rewrite !list_elem_of_In, in_map_iff. split.
    + intros (x & <- & [_ Hx]%filter_In).
      apply bool_decide_eq_true, elem_of_list_to_set in Hx.
      by apply list_elem_of_In.
    + intros Hin. pose proof (Hincl k Hin) as Hk'.
      apply in_map_iff in Hk' as (x & <- & Hx).
      exists x. split; [reflexivity|]. apply filter_In. split; [exact Hx|].
      apply bool_decide_eq_true, elem_of_list_to_set. by apply list_elem_of_In.
Qed.

Lemma NoDup_picks_split (allPicks : list Pick.t) :
  List.NoDup (map Pick.element allPicks) ->
  List.NoDup (map Pick.element (firstn 11 allPicks)) ∧
  List.NoDup (map Pick.element (skipn 11 allPicks)) ∧
  (forall i, In i (map Pick.element (firstn 11 allPicks)) ->
             In i (map Pick.element (skipn 11 allPicks)) -> False).
Proof.
  intros Hnd. rewrite <- (firstn_skipn 11 allPicks), map_app in Hnd.
  apply NoDup_ListNoDup, NoDup_app in Hnd as (H1 & H2 & H3).
  split; [by apply NoDup_ListNoDup|]. split; [by apply NoDup_ListNoDup|].
  intros i Hi Hb. apply (H2 i); by apply list_elem_of_In.
Qed.

Lemma filter_flagBench subs (l : list Pick.t) :
  length (List.filter ActivePick.isActive (map (flagBench false subs) l))
  = length (List.filter
      (fun x => bool_decide (Pick.element x ∈
                   (list_to_set (map AutoSub.element_in subs) : gset Z))) l).
Proof.
  induction l as [|b l IH]; [reflexivity|].
  cbn [map List.filter ActivePick.isActive flagBench].
  rewrite orb_false_r. destruct (bool_decide _); cbn [length]; by rewrite IH.
Qed.

Lemma filter_flagStarter subs (l : list Pick.t) :
  (forall s, In s l ->
     bool_decide (Pick.element s ∈
        (list_to_set (map AutoSub.element_in subs) : gset Z)) = false) ->
  length (List.filter ActivePick.isActive (map (flagStarter subs) l))
  = length (List.filter
      (fun x => negb (bool_decide (Pick.element x ∈
                   (list_to_set (map AutoSub.element_out subs) : gset Z)))) l).
Proof.
  induction l as [|s l IH]; intros Hnotin; [reflexivity|].
  cbn [map List.filter ActivePick.isActive flagStarter].
  rewrite (Hnotin s (or_introl eq_refl)), orb_false_r.
  specialize (IH (fun x Hx => Hnotin x (or_intror Hx))).
  destruct (negb _); cbn [length]; by rewrite IH.
Qed.

(** With distinct picks and a proper substitution list, and no bench boost,
    exactly the number of starters is active. *)
Lemma activePicks_count (subs : list AutoSub.t) (allPicks : list Pick.t) :
  List.NoDup (map Pick.element allPicks) -> properSubs allPicks subs ->
  length (List.filter ActivePick.isActive (activePicks false subs allPicks))
  = length (firstn 11 allPicks).
Proof.
  intros Hnd (Hin & Hout & Hinb & Houts).
  destruct (NoDup_picks_split allPicks Hnd) as (HS & HB & Hdisj).
  rewrite activePicks_split, List.filter_app, length_app.
  rewrite filter_flagBench, filter_flagStarter.
  - rewrite (filter_keys_length Pick.element (map AutoSub.element_in subs)
               (skipn 11 allPicks)) by done.
    pose proof (filter_length_partition
                  (fun x => bool_decide (Pick.element x ∈
                     (list_to_set (map AutoSub.element_out subs) : gset Z)))
                  (firstn 11 allPicks)) as Hpart.
    rewrite (filter_keys_length Pick.element (map AutoSub.element_out subs)
               (firstn 11 allPicks)) in Hpart by done.
    rewrite !length_map in *. lia.
  - intros s Hs. apply bool_decide_eq_false. rewrite elem_of_list_to_set.
    intros Hi%list_elem_of_In. apply (Hdisj (Pick.element s)).
    + by apply in_map.
    + by apply Hinb.
Qed.

Lemma fold_substituteStarter_outs gw ps fs els entry bench starting : forall st,
  List.NoDup (map Pick.element starting) ->
  List.NoDup (map AutoSub.element_out (autoSubs st)) ->
  (forall o, In o (map AutoSub.element_out (autoSubs st)) ->
             ~ In o (map Pick.element starting)) ->
  List.NoDup (map AutoSub.element_out
    (autoSubs (fold_left (substituteStarter gw ps fs els entry bench) starting st))).
Proof.
  induction starting as [|pick starting IH]; intros st Hnd Hst Hdisj; [exact Hst|].
  inversion Hnd as [|? ? Hpick Hnd']; subst. cbn [fold_left]. apply IH; [exact Hnd'| |].
  - destruct (substituteStarter_cases gw ps fs els entry bench st pick)
      as [->|(player & benchPick & benchPlayer & _ & _ & _ & ->)]; [exact Hst|].
    cbn [autoSubs]. rewrite map_app. cbn [map AutoSub.element_out].
    apply NoDup_ListNoDup, NoDup_app. split; [by apply NoDup_ListNoDup|].
    split; [|apply NoDup_singleton].
    intros o Ho ->%list_elem_of_singleton.
    apply (Hdisj (Pick.element pick)); [by apply list_elem_of_In | by left].
  - intros o Ho Hin.
    destruct (substituteStarter_cases gw ps fs els entry bench st pick)
      as [Heq|(player & benchPick & benchPlayer & _ & _ & _ & Heq)];
      rewrite Heq in Ho.
    + apply (Hdisj o Ho). by right.
    + cbn [autoSubs] in Ho. rewrite map_app in Ho.
      apply in_app_or in Ho as [Ho|[<-|[]]].
      * apply (Hdisj o Ho). by right.
      * by apply Hpick.
Qed.

Lemma localAutoSubs_properSubs gw ps fs els entry allPicks :
  List.NoDup (map Pick.element allPicks) ->
  properSubs allPicks (localAutoSubs gw ps fs els entry allPicks).
Proof.
  intros Hnd. destruct (NoDup_picks_split allPicks Hnd) as (HS & _ & _).
  split; [apply NoDup_ListNoDup;
          apply (resolveLocally_benchLedger gw ps fs els entry allPicks)|].
  split; [|split; [apply localAutoSubs_in_bench|]].
  - unfold localAutoSubs. apply fold_substituteStarter_outs; [exact HS|constructor|].
    intros o [].
  - intros o (sub & <- & Hsub)%in_map_iff.
    pose proof (localAutoSubs_localSub gw ps fs els entry allPicks) as H.
    rewrite List.Forall_forall in H.
    destruct (H sub Hsub) as (pick & _ & _ & _ & Hp & _ & -> & _).
    by apply in_map.
Qed.

Lemma calculateLocalAutoSubs_properSubs app picks allPicks :
  Picks.picks picks = Some allPicks ->
  List.NoDup (map Pick.element allPicks) ->
  match Picks.automatic_subs picks with
  | Some (sub :: subs) => properSubs allPicks (sub :: subs)
  | _ => True
  end ->
  properSubs allPicks (calculateLocalAutoSubs app (Some picks)).
Proof.
  intros Hp Hnd Hup.
  assert (properSubs allPicks []) as Hnil.
  { repeat split; try constructor; intros o []. }
  unfold calculateLocalAutoSubs. rewrite Hp.
  destruct (liveData app); [|exact Hnil].
  destruct (fixtures app); [|exact Hnil].
  destruct (players app); [|exact Hnil].
  destruct (Picks.automatic_subs picks) as [[|sub subs]|];
    try exact Hup; by apply localAutoSubs_properSubs.
Qed.

(** X9. For a roster of at most fifteen distinct picks whose substitutions
    are computed locally (or reported upstream as distinct starters for
    distinct bench picks), the number of players counted as played is
    never above the maximum shown beside it: 11, or 15 under bench
    boost. *)
Theorem played_within_maxPlayers app picks allPicks els info :
  Picks.picks picks = Some allPicks -> liveData app = Some els ->
  List.NoDup (map Pick.element allPicks) -> (length allPicks <= 15)%nat ->
  match Picks.automatic_subs picks with
  | Some (sub :: subs) => properSubs allPicks (sub :: subs)
  | _ => True
  end ->
  calculateLiveInfo app (Some picks) = Ok info ->
  ∃ n, LiveInfo.maxPlayers info = Some n ∧ 0 <= LiveInfo.played info <= n.
Proof.
  intros Hp Hels Hnd Hlen Hup Hinfo.
  destruct (calculateLiveInfo_closed app picks allPicks els info Hp Hels Hinfo)
    as (Hplayed & _ & Hmax).
  eexists. split; [exact Hmax|]. rewrite Hplayed.
  pose proof (filter_length_le (countsAndPlayed els) ActivePick.isActive
    (activePicks (isBenchBoost (Picks.active_chip picks))
                 (calculateLocalAutoSubs app (Some picks)) allPicks)) as Hle.
  specialize (Hle ltac:(by intros ap [? _]%andb_true_iff)).
  destruct (isBenchBoost (Picks.active_chip picks)).
  - pose proof (filter_length_le ActivePick.isActive (fun _ => true)
      (activePicks true (calculateLocalAutoSubs app (Some picks)) allPicks)
      ltac:(done)) as Hall.
    rewrite (filter_all (fun _ => true)) in Hall by done.
    unfold activePicks in Hall at 2. rewrite length_imap in Hall. lia.
  - rewrite activePicks_count in Hle
      by (try done; by apply calculateLocalAutoSubs_properSubs).
    pose proof (firstn_le_length 11 allPicks).
    rewrite length_firstn in Hle. lia.
Qed.

Lemma played_within_maxPlayers_witness :
  ∃ n, LiveInfo.maxPlayers (LiveInfo.mk 11 (Some 11) None false 0 None 82) = Some n ∧
       0 <= LiveInfo.played (LiveInfo.mk 11 (Some 11) None false 0 None 82) <= n.
Proof.
  apply (played_within_maxPlayers Sample.worldLoneForward (Sample.roster None None)
           (map Sample.slot [1; 2; 3; 4; 5; 6; 7; 8; 9; 10; 11; 12; 13; 14; 15])
           Sample.live541).
  - reflexivity.
  - reflexivity.
  - vm_compute. repeat constructor; simpl; lia.
  - vm_compute. lia.
  - vm_compute. exact I.
  - vm_compute. reflexivity.
Defined.

(** ** getPlayerDetails agrees with calculateLiveInfo *)

Lemma mapResult_Ok {A B} (h : A -> B) (f : A -> result B) l :
  (forall x, In x l -> f x = Ok (h x)) -> mapResult f l = Ok (map h l).
Proof.
  induction l as [|x l IH]; intros Hf; [reflexivity|].
  cbn [mapResult map]. rewrite (Hf x (or_introl eq_refl)), IH.
  - reflexivity.
  - intros y Hy. apply Hf. by right.
Qed.

Lemma mapResult_Forall2 {A B} (R : B -> A -> Prop) (f : A -> result B) l :
  (forall x, In x l -> ∃ y, f x = Ok y ∧ R y x) ->
  ∃ ys, mapResult f l = Ok ys ∧ Forall2 R ys l.
Proof.
  induction l as [|x l IH]; intros Hf.
  - exists []. split; [reflexivity|constructor].
  - destruct (Hf x (or_introl eq_refl)) as (y & Hy & HR).
    destruct IH as (ys & Hys & Hall); [intros z Hz; apply Hf; by right|].
    exists (y :: ys). cbn [mapResult]. rewrite Hy, Hys.
    split; [reflexivity | by constructor].
Qed.

Lemma rows_add_up els provisionalBonus rows aps :
  Forall2 (rowMatches els provisionalBonus) rows aps ->
  sumZ (map PlayerInfo.effectivePoints (List.filter PlayerInfo.hasPlayed rows))
  = sumZ (map (fun ap => pickPoints els provisionalBonus (Pick.element (ActivePick.pick ap))
                         * Pick.multiplier (ActivePick.pick ap))
              (List.filter (countsAndPlayed els) aps)) ∧
  length (List.filter (fun r => PlayerInfo.pointsCount r && PlayerInfo.hasPlayed r) rows)
  = length (List.filter (countsAndPlayed els) aps).
Proof.
  induction 1 as [|row ap rows aps (Hc & Hp & He) _ [IHs IHl]]; [done|].
  cbn [List.filter].
  pose proof (eq_refl : countsAndPlayed els ap
                = ActivePick.isActive ap
                  && hasPlayed els (Pick.element (ActivePick.pick ap))) as Hcp.
  rewrite Hcp, Hc, Hp. clear Hcp.
  destruct (ActivePick.isActive ap), (hasPlayed els _);
    cbn [andb map length]; rewrite ?He; unfold sumZ in *; cbn [foldr]; lia.
Qed.

Lemma getPlayerInfo_matches d ps ts benchBoost provisionalBonus subs index pick :
  players (engine d) = Some ps -> teams d = Some ts ->
  ∃ row, getPlayerInfo d benchBoost provisionalBonus subs index pick = Ok row ∧
    PlayerInfo.id row = Pick.element pick ∧
      rowMatches (default [] (liveData (engine d))) provisionalBonus row
        (ActivePick.mk pick
           (((index <? 11)%nat &&
             negb (bool_decide (Pick.element pick ∈
                     (list_to_set (map AutoSub.element_out subs) : gset Z))))
            || bool_decide (Pick.element pick ∈
                     (list_to_set (map AutoSub.element_in subs) : gset Z))
            || (benchBoost && (11 <=? index)%nat))
           (bool_decide (Pick.element pick ∈
                     (list_to_set (map AutoSub.element_in subs) : gset Z)))
           (bool_decide (Pick.element pick ∈
                     (list_to_set (map AutoSub.element_out subs) : gset Z)))).
Proof.
  intros Hps Hts. unfold getPlayerInfo. rewrite Hps, Hts.
  destruct (ps !! Pick.element pick); cbn [mbind result_bind];
    (eexists; split; [reflexivity|]; split; [reflexivity|]);
    repeat split.
Qed.

Lemma Forall2_map_eq {A B C} (f : A -> C) (g : B -> C) l k :
  Forall2 (fun x y => f x = g y) l k -> map f l = map g k.
Proof. induction 1; cbn [map]; congruence. Qed.

Lemma countsAndPlayed_no_data aps : List.filter (countsAndPlayed []) aps = [].
Proof.
  apply filter_none. intros ap _. unfold countsAndPlayed, hasPlayed.
  cbn. apply andb_false_r.
Qed.

(** X10. With players and teams loaded, the detail view of a roster is
    built, has one row per pick in pick order, and agrees with the
    leaderboard: the effective points of its rows that have played add up
    to the live points, and its rows that count and have played number the
    played count. *)
Theorem getPlayerDetails_adds_up d ps ts picks :
  players (engine d) = Some ps -> teams d = Some ts ->
  ∃ det info,
    getPlayerDetails d picks = Ok det ∧
    calculateLiveInfo (engine d) picks = Ok info ∧
    map PlayerInfo.id (Details.starting det ++ Details.bench det)
      = map Pick.element (rosterPicks picks) ∧
    LiveInfo.livePoints info = shownTotal det ∧
    LiveInfo.played info = shownPlayed det.
Proof.
  intros Hps Hts.
  destruct (calculateLiveInfo_returns (engine d) ps picks Hps) as [info Hinfo].
  destruct picks as [picks|]; cycle 1.
  { injection Hinfo as <-.
    exists (Details.mk [] [] None), (LiveInfo.mk 0 None None false 0 None 0).
    repeat split. }
  destruct (Picks.picks picks) as [allPicks|] eqn:Hp; cycle 1.
  { exists (Details.mk [] [] None), info.
    split; [unfold getPlayerDetails; by rewrite Hp|]. split; [exact Hinfo|].
    unfold calculateLiveInfo in Hinfo. rewrite Hp in Hinfo. injection Hinfo as <-.
    unfold rosterPicks. rewrite Hp. repeat split. }
  set (els := default [] (liveData (engine d))).
  set (bb := isBenchBoost (Picks.active_chip picks)).
  set (pb := calculateProvisionalBonus (engine d)).
  set (subs := calculateLocalAutoSubs (engine d) (Some picks)).
  set (F := fun (index : nat) (pick : Pick.t) =>
         ActivePick.mk pick
           (((index <? 11)%nat &&
             negb (bool_decide (Pick.element pick ∈
                     (list_to_set (map AutoSub.element_out subs) : gset Z))))
            || bool_decide (Pick.element pick ∈
                     (list_to_set (map AutoSub.element_in subs) : gset Z))
            || (bb && (11 <=? index)%nat))
           (bool_decide (Pick.element pick ∈
                     (list_to_set (map AutoSub.element_in subs) : gset Z)))
           (bool_decide (Pick.element pick ∈
                     (list_to_set (map AutoSub.element_out subs) : gset Z)))).
  destruct (mapResult_Forall2
              (fun row (ip : nat * Pick.t) =>
                 PlayerInfo.id row = Pick.element ip.2 ∧
                 rowMatches els pb row (F ip.1 ip.2))
              (fun ip => getPlayerInfo d bb pb subs ip.1 ip.2)
              (imap pair allPicks)) as (rows & Hrows & Hall).
  { intros [i x] _. cbn [fst snd].
    destruct (getPlayerInfo_matches d ps ts bb pb subs i x Hps Hts) as (row & -> & Hid & Hm).
    exists row. split; [reflexivity|]. by split. }
  assert (Forall2 (rowMatches els pb) rows (activePicks bb subs allPicks)) as Hmatch.
  { change (activePicks bb subs allPicks) with (imap F allPicks).
    replace (imap F allPicks) with ((fun ip : nat * Pick.t => F ip.1 ip.2) <$> imap pair allPicks)
      by (rewrite fmap_imap; by apply imap_ext).
    apply Forall2_fmap_r. eapply Forall2_impl; [exact Hall|]. by intros ? ? [_ ?]. }
  assert (map PlayerInfo.id rows = map Pick.element allPicks) as Hids.
  { transitivity (map (fun ip : nat * Pick.t => Pick.element ip.2) (imap pair allPicks)).
    - apply Forall2_map_eq. eapply Forall2_impl; [exact Hall|]. by intros ? ? [? _].
    - change (map ?f ?l) with (f <$> l). rewrite fmap_imap.
      rewrite <- (imap_const Pick.element). by apply imap_ext. }
  destruct (rows_add_up els pb rows _ Hmatch) as [Hsum Hcount].
  exists (Details.mk (firstn 11 rows) (skipn 11 rows) (Picks.active_chip picks)), info.
  split.
  { unfold getPlayerDetails. rewrite Hp. fold bb pb subs. by rewrite Hrows. }
  split; [exact Hinfo|].
  unfold shownTotal, shownPlayed, rosterPicks.
  cbn [Details.starting Details.bench]. rewrite Hp, firstn_skipn. cbn [default].
  split; [exact Hids|]. rewrite Hsum, Hcount.
  destruct (liveData (engine d)) as [els'|] eqn:Hels.
  - destruct (calculateLiveInfo_closed (engine d) picks allPicks els' info Hp Hels Hinfo)
      as (Hpl & Hlp & _).
    by rewrite Hpl, Hlp.
  - unfold calculateLiveInfo in Hinfo. rewrite Hp, Hels in Hinfo. injection Hinfo as <-.
    subst els. cbn [default]. by rewrite countsAndPlayed_no_data.
Qed.

Lemma getPlayerDetails_adds_up_witness :
  ∃ det info,
    getPlayerDetails Club.display (Some (Sample.roster None None)) = Ok det ∧
    calculateLiveInfo (engine Club.display) (Some (Sample.roster None None)) = Ok info ∧
    map PlayerInfo.id (Details.starting det ++ Details.bench det)
      = map Pick.element (rosterPicks (Some (Sample.roster None None))) ∧
    LiveInfo.livePoints info = shownTotal det ∧
    LiveInfo.played info = shownPlayed det.
Proof.
  apply (getPlayerDetails_adds_up Club.display
           (Sample.playersMap Sample.squad541) Club.teamsMap
           (Some (Sample.roster None None))); reflexivity.
Defined.

(** ** getFixtureEvents: the bonus column *)

Lemma takeTiedPlayers_split b l tied rest :
  takeTiedPlayers b l = (tied, rest) -> l = tied ++ rest.
Proof.
  revert tied rest. induction l as [|x l IH]; intros tied rest; simpl.
  - by intros [= <- <-].
  - destruct (FixturePlayer.bps x =? b).
    + destruct (takeTiedPlayers b l) as [t r]. intros [= <- <-].
      by rewrite (IH t r eq_refl).
    + by intros [= <- <-].
Qed.

(** The rows of the second award loop carry a bonus from 1 to 3 and are
    taken from the front of the array. *)
Lemma awardRows_rows fuel : forall position l,
  1 <= position ->
  Forall (fun r => 1 <= BonusRow.bonus r <= 3) (awardRows fuel position l) ∧
  ∃ rest, map BonusRow.player (awardRows fuel position l) ++ rest = l.
Proof.
  induction fuel as [|fuel IH]; intros position l Hpos.
  - split; [constructor | by exists l].
  - destruct l as [|p l]; [split; [constructor | by exists []]|].
    cbn [awardRows].
    destruct (Z.leb_spec position 3) as [Hle|]; [|split; [constructor | by eexists]].
    destruct (takeTiedPlayers (FixturePlayer.bps p) (p :: l)) as [tied rest] eqn:Ht.
    apply takeTiedPlayers_split in Ht.
    destruct (IH (position + Z.of_nat (length tied)) rest ltac:(lia)) as [Hb [rest' Hr]].
    split.
    + apply Forall_app. split; [|exact Hb].
      apply List.Forall_forall. intros r (q & <- & _)%in_map_iff. cbn. lia.
    + exists rest'. rewrite map_app, map_map. cbn [BonusRow.player].
      rewrite map_id, <- app_assoc, Hr. by symmetry.
Qed.

Lemma existsb_false {A} (f : A -> bool) l :
  existsb f l = false -> forall x, In x l -> f x = false.
Proof.
  intros He x Hx. destruct (f x) eqn:Hf; [|reflexivity].
  rewrite <- He. symmetry. apply existsb_exists. eauto.
Qed.

(** X16. The bonus column of a fixture card never mixes official and
    projected bonus. For a started fixture with the data loaded the rows
    come out in descending order of bonus; if any player who played has an
    official bonus, the column is flagged confirmed and holds exactly the
    players with an official bonus, each with that bonus; otherwise every
    row is a player of the fixture without official bonus, with a
    projected bonus from 1 to 3. *)
Theorem getFixtureEvents_bonus d ts els fixture fps :
  liveData (engine d) = Some els -> teams d = Some ts ->
  Fixture.started fixture = true ->
  fixturePlayers d ts els fixture = Ok fps ->
  ∃ rows,
    getFixtureEvents d fixture
      = Ok (rows, existsb (fun p => 0 <? FixturePlayer.apiBonus p) fps) ∧
    StronglySorted bonusGe rows ∧
    if existsb (fun p => 0 <? FixturePlayer.apiBonus p) fps
    then Permutation (map BonusRow.player rows)
                     (List.filter (fun p => 0 <? FixturePlayer.apiBonus p) fps) ∧
         Forall (fun r => BonusRow.bonus r = FixturePlayer.apiBonus (BonusRow.player r) ∧
                          0 < BonusRow.bonus r) rows
    else Forall (fun r => In (BonusRow.player r) fps ∧
                          FixturePlayer.apiBonus (BonusRow.player r) <= 0 ∧
                          1 <= BonusRow.bonus r <= 3) rows.
Proof.
  intros Hels Hts Hst Hfps. unfold getFixtureEvents.
  rewrite Hels, Hst, Hts, Hfps. cbn [negb mbind result_bind].
  eexists. split; [reflexivity|]. split.
  { apply js_sort_StronglySorted; unfold bonusGe; intros; lia. }
  destruct (existsb _ fps) eqn:Hoff.
  - split.
    + rewrite js_sort_Permutation, map_map. cbn [BonusRow.player].
      rewrite map_id. apply js_sort_Permutation.
    + eapply Permutation_Forall; [symmetry; apply js_sort_Permutation|].
      apply List.Forall_forall. intros r (p & <- & Hp)%in_map_iff.
      cbn [BonusRow.bonus BonusRow.player]. split; [reflexivity|].
      eapply Permutation_in in Hp; [|apply js_sort_Permutation].
      apply filter_In in Hp as [_ Hp]. by apply Z.ltb_lt.
  - eapply Permutation_Forall; [symmetry; apply js_sort_Permutation|].
    set (sorted := js_sort _ fps).
    destruct (awardRows_rows (length sorted) 1 sorted ltac:(lia)) as [Hb [rest Hr]].
    apply List.Forall_forall. intros r Hin.
    assert (In (BonusRow.player r) fps) as Hp.
    { assert (In (BonusRow.player r) sorted) as Hs.
      { rewrite <- Hr. apply in_or_app. left. by apply in_map. }
      eapply Permutation_in; [apply js_sort_Permutation | exact Hs]. }
    split; [exact Hp|]. split.
    + apply Z.ltb_ge. by apply (existsb_false _ _ Hoff).
    + rewrite List.Forall_forall in Hb. by apply Hb.
Qed.

Lemma getFixtureEvents_bonus_witness :
  ∃ rows,
    getFixtureEvents (mkDisplay Sample.worldMixedBonus (Some Club.teamsMap))
      (Fixture.mk 22 1 2 true true true)
      = Ok (rows, existsb (fun p => 0 <? FixturePlayer.apiBonus p)
                    [FixturePlayer.mk 2 "Saliba" "ARS" (Some 3) 20 3;
                     FixturePlayer.mk 7 "Saka" "ARS" (Some 3) 35 0]) ∧
    StronglySorted bonusGe rows ∧
    if existsb (fun p => 0 <? FixturePlayer.apiBonus p)
         [FixturePlayer.mk 2 "Saliba" "ARS" (Some 3) 20 3;
          FixturePlayer.mk 7 "Saka" "ARS" (Some 3) 35 0]
    then Permutation (map BonusRow.player rows)
           (List.filter (fun p => 0 <? FixturePlayer.apiBonus p)
              [FixturePlayer.mk 2 "Saliba" "ARS" (Some 3) 20 3;
               FixturePlayer.mk 7 "Saka" "ARS" (Some 3) 35 0]) ∧
         Forall (fun r => BonusRow.bonus r = FixturePlayer.apiBonus (BonusRow.player r) ∧
                          0 < BonusRow.bonus r) rows
    else Forall (fun r => In (BonusRow.player r)
                            [FixturePlayer.mk 2 "Saliba" "ARS" (Some 3) 20 3;
                             FixturePlayer.mk 7 "Saka" "ARS" (Some 3) 35 0] ∧
                          FixturePlayer.apiBonus (BonusRow.player r) <= 0 ∧
                          1 <= BonusRow.bonus r <= 3) rows.
Proof.
  apply (getFixtureEvents_bonus (mkDisplay Sample.worldMixedBonus (Some Club.teamsMap))
           Club.teamsMap Sample.liveMixedBonus (Fixture.mk 22 1 2 true true true));
    vm_compute; reflexivity.
Defined.

(** ** The fixture card's projected bonus is the scorer's *)

Lemma fixturePlayers_asBpsEntry d ps ts els fixture fps :
  players (engine d) = Some ps -> keyedById ps ->
  fixturePlayers d ts els fixture = Ok fps ->
  map asBpsEntry fps = playersInFixture ps els fixture.
Proof.
  intros Hps Hkey. unfold fixturePlayers, playersInFixture. rewrite Hps.
  intros [= <-]. induction els as [|element els IH]; [reflexivity|].
  cbn [flat_map]. rewrite map_app, IH. f_equal.
  destruct (ps !! LiveElement.id element) as [player|] eqn:Hpl; [|reflexivity].
  rewrite (Hkey _ _ Hpl).
  destruct (_ || _); [|reflexivity]. cbn [andb].
  by destruct (0 <? _).
Qed.

Lemma takeTied_asBpsEntry b l :
  takeTied b (map asBpsEntry l)
  = (map asBpsEntry (takeTiedPlayers b l).1, map asBpsEntry (takeTiedPlayers b l).2).
Proof.
  induction l as [|x l IH]; [reflexivity|].
  cbn [map takeTied takeTiedPlayers asBpsEntry BpsEntry.bps].
  destruct (FixturePlayer.bps x =? b); [|reflexivity].
  fold (asBpsEntry x). rewrite IH. by destruct (takeTiedPlayers b l).
Qed.

(** The two copies of the award loop make the same awards. *)
Lemma awardLoop_awardRows fuel : forall position l m,
  awardLoop fuel position (map asBpsEntry l) m
  = applyWrites m
      (map (fun r => (FixturePlayer.id (BonusRow.player r), BonusRow.bonus r))
           (awardRows fuel position l)).
Proof.
  induction fuel as [|fuel IH]; intros position l m; [reflexivity|].
  destruct l as [|p l]; [reflexivity|].
  cbn [awardLoop awardRows map]. fold (map asBpsEntry l).
  change (asBpsEntry p :: map asBpsEntry l) with (map asBpsEntry (p :: l)).
  change (BpsEntry.bps (asBpsEntry p)) with (FixturePlayer.bps p).
  destruct (position <=? 3); [|reflexivity].
  rewrite takeTied_asBpsEntry.
  destruct (takeTiedPlayers (FixturePlayer.bps p) (p :: l)) as [tied rest].
  cbn [fst snd]. rewrite length_map, IH, map_app, applyWrites_app.
  rewrite setBonus_applyWrites, !map_map. reflexivity.
Qed.

Lemma flat_map_NoDup_ids ps els fixture :
  List.NoDup (map LiveElement.id els) ->
  List.NoDup (map BpsEntry.id (playersInFixture ps els fixture)).
Proof.
  unfold playersInFixture.
  induction els as [|element els IH]; intros Hnd; [constructor|].
  inversion Hnd as [|? ? Hel Hnd']; subst. cbn [flat_map]. rewrite map_app.
  assert (forall i, In i (map BpsEntry.id
            (flat_map (fun element =>
               match ps !! LiveElement.id element with
               | Some player =>
                   if ((Player.team player =? Fixture.team_h fixture) ||
                       (Player.team player =? Fixture.team_a fixture)) &&
                      (0 <? stat Stats.minutes (Some element))
                   then [BpsEntry.mk (LiveElement.id element)
                           (stat Stats.bps (Some element)) (Player.web_name player)]
                   else []
               | None => []
               end) els)) -> In i (map LiveElement.id els)) as Hsub.
  { intros i (p & <- & (e & He & Hp)%in_flat_map)%in_map_iff.
    destruct (ps !! LiveElement.id e); [|destruct Hp].
    destruct (_ && _); [|destruct Hp]. destruct Hp as [<-|[]].
    cbn [BpsEntry.id]. by apply in_map. }
  destruct (ps !! LiveElement.id element); [|by apply IH].
  destruct (_ && _); [|by apply IH].
  cbn [map app BpsEntry.id]. constructor; [|by apply IH].
  intros Hin. apply Hel. by apply Hsub.
Qed.

(** X18. The projected bonus a fixture card shows is the provisional bonus
    the scorer computes for that fixture: with each player stored under its
    own id and distinct live elements, every row of an unconfirmed bonus
    column carries the value the scorer's allocation gives that player. *)
Theorem projected_bonus_is_scored_bonus d ps ts els fixture rows :
  players (engine d) = Some ps -> keyedById ps ->
  liveData (engine d) = Some els -> List.NoDup (map LiveElement.id els) ->
  teams d = Some ts ->
  getFixtureEvents d fixture = Ok (rows, false) ->
  Forall (fun r =>
            awardBonus (js_sort bpsDescending (playersInFixture ps els fixture)) ∅
              !! FixturePlayer.id (BonusRow.player r)
            = Some (BonusRow.bonus r))
         rows.
Proof.
  intros Hps Hkey Hels Hnd Hts. unfold getFixtureEvents. rewrite Hels, Hts.
  destruct (Fixture.started fixture); cbn [negb];
    [|intros [= <-]; constructor].
  destruct (fixturePlayers d ts els fixture) as [fps|] eqn:Hfps; [|discriminate].
  cbn [mbind result_bind]. intros [= <- Hoff]. rewrite Hoff.
  pose proof (fixturePlayers_asBpsEntry d ps ts els fixture fps Hps Hkey Hfps) as Hconv.
  eapply Permutation_Forall; [symmetry; apply js_sort_Permutation|].
  set (sorted := js_sort (fun a b => FixturePlayer.bps b - FixturePlayer.bps a) fps).
  assert (js_sort bpsDescending (playersInFixture ps els fixture)
          = map asBpsEntry sorted) as Hsorted.
  { rewrite <- Hconv. by apply js_sort_map. }
  rewrite Hsorted. unfold awardBonus. rewrite length_map, awardLoop_awardRows.
  destruct (awardRows_rows (length sorted) 1 sorted ltac:(lia)) as [_ [rest Hr]].
  apply List.Forall_forall. intros r Hin. apply applyWrites_lookup_in.
  - rewrite map_map. cbn [fst].
    assert (List.NoDup (map FixturePlayer.id sorted)) as Hids.
    { replace (map FixturePlayer.id sorted)
        with (map BpsEntry.id (map asBpsEntry sorted)) by (by rewrite map_map).
      rewrite <- Hsorted.
      eapply Permutation_NoDup;
        [apply Permutation_map; symmetry; apply js_sort_Permutation|].
      by apply flat_map_NoDup_ids. }
    rewrite <- Hr, map_app in Hids. apply NoDup_app_remove_r in Hids.
    by rewrite map_map in Hids.
  - apply in_map_iff. by exists r.
Qed.

Lemma playersMap_keyedById l : keyedById (Sample.playersMap l).
Proof.
  unfold Sample.playersMap.
  assert (keyedById (∅ : gmap Z Player.t)) as H0.
  { intros k p. by rewrite lookup_empty. }
  revert H0. generalize (∅ : gmap Z Player.t).
  induction l as [|x l IH]; intros m Hm; [exact Hm|].
  cbn [fold_left]. apply IH. intros k p.
  rewrite lookup_insert. case_decide; [|apply Hm].
  intros [= <-]. done.
Qed.

Lemma projected_bonus_is_scored_bonus_witness :
  Forall (fun r =>
            awardBonus (js_sort bpsDescending
                          (playersInFixture (Sample.playersMap (Sample.squad442 5))
                             Club.liveBps (Fixture.mk 22 1 2 true true true))) ∅
              !! FixturePlayer.id (BonusRow.player r)
            = Some (BonusRow.bonus r))
         ClubRows.rows.
Proof.
  apply (projected_bonus_is_scored_bonus Club.displayBps
           (Sample.playersMap (Sample.squad442 5)) Club.teamsMap Club.liveBps
           (Fixture.mk 22 1 2 true true true) ClubRows.rows).
  - reflexivity.
  - apply playersMap_keyedById.
  - reflexivity.
  - vm_compute. repeat constructor; simpl; lia.
  - reflexivity.
  - vm_compute. reflexivity.
Defined.

(** ** Team colours *)

Lemma strOr_nonempty s d : s <> EmptyString -> strOr s d = s.
Proof. intros Hs. unfold strOr. by destruct (String.eqb_spec s EmptyString). Qed.

(** X19. A team badge is never lettered in its own background colour:
    for every team code, known or not, the text colour differs from the
    background colour. *)
Theorem team_text_differs_from_background (teamCode : option Z) :
  getTeamTextColor teamCode <> getTeamColor teamCode.
Proof.
  destruct teamCode as [c|]; [|vm_compute; discriminate].
  unfold getTeamTextColor, getTeamColor, colorOr. cbn [mbind option_bind].
  destruct (decide (c = 54)) as [->|H54]; [vm_compute; discriminate|].
  destruct (decide (c = 9)) as [->|H9]; [vm_compute; discriminate|].
  destruct (decide (c = 39)) as [->|H39]; [vm_compute; discriminate|].
  assert (darkTextTeams !! c = None) as ->.
  { apply not_elem_of_list_to_map_1. cbn.
    rewrite !elem_of_cons, elem_of_nil. tauto. }
  destruct (teamColors !! c) as [s|] eqn:Hl; [|discriminate].
  apply elem_of_list_to_map_2, list_elem_of_In in Hl. cbn in Hl.
  repeat destruct Hl as [[= <- <-]|Hl]; try done.
Qed.

(** ** Expanding and collapsing rows *)

(** X20. Toggling flips membership, and toggling the same fixture (or the
    same manager's row) twice leaves the expanded set as it was. *)
Theorem toggle_twice (expanded : gset Z) (fixtureId : Z) (manager : Manager.t) :
  (fixtureId ∈ toggleFixtureExpansion expanded fixtureId <-> fixtureId ∉ expanded) ∧
  toggleFixtureExpansion (toggleFixtureExpansion expanded fixtureId) fixtureId = expanded ∧
  (Manager.entry manager ∈ toggleRowExpansion expanded manager
     <-> Manager.entry manager ∉ expanded) ∧
  toggleRowExpansion (toggleRowExpansion expanded manager) manager = expanded.
Proof.
  assert (forall (s : gset Z) x,
            (x ∈ (if decide (x ∈ s) then s ∖ {[x]} else s ∪ {[x]}) <-> x ∉ s) ∧
            (let t := if decide (x ∈ s) then s ∖ {[x]} else s ∪ {[x]} in
             if decide (x ∈ t) then t ∖ {[x]} else t ∪ {[x]}) = s) as Htoggle.
  { intros s x. split.
    - case_decide; rewrite ?elem_of_difference, ?elem_of_union, elem_of_singleton; tauto.
    - cbn zeta. destruct (decide (x ∈ s)) as [Hx|Hx].
      + rewrite decide_False by (rewrite elem_of_difference, elem_of_singleton; tauto).
        apply set_eq. intros y.
        rewrite elem_of_union, elem_of_difference, elem_of_singleton.
        destruct (decide (y = x)) as [->|]; tauto.
      + rewrite decide_True by (rewrite elem_of_union, elem_of_singleton; tauto).
        apply set_eq. intros y.
        rewrite elem_of_difference, elem_of_union, elem_of_singleton.
        destruct (decide (y = x)) as [->|]; tauto. }
  unfold toggleFixtureExpansion, toggleRowExpansion.
  destruct (Htoggle expanded fixtureId) as [H1 H2].
  destruct (Htoggle expanded (Manager.entry manager)) as [H3 H4].
  done.
Qed.

(** ** fetchWithCache *)

(** X21. A call that finds no fresh entry and whose fetch succeeds returns
    the fetched data and stores it; every call for the same key less than
    [ttl] after it returns that data again without the network (whatever a
    fetch would give) and leaves the cache as it is. A call never touches
    another key's entry, and a call whose fetch fails leaves the whole
    cache unchanged. *)
Theorem fetchWithCache_round_trip {A} (cache : gmap string (Cached.t A))
    (cacheKey : string) (ttl now : Z) (data : A) :
  (forall cached, cache !! cacheKey = Some cached -> ttl <= now - Cached.timestamp cached) ->
  (fetchWithCache cache cacheKey ttl now (Some data)).1 = Some data ∧
  (∀ now' fetched',
     now' - now < ttl ->
     fetchWithCache (fetchWithCache cache cacheKey ttl now (Some data)).2
                    cacheKey ttl now' fetched'
     = (Some data, (fetchWithCache cache cacheKey ttl now (Some data)).2)) ∧
  (∀ other fetched,
     other <> cacheKey ->
     (fetchWithCache cache cacheKey ttl now fetched).2 !! other = cache !! other) ∧
  (fetchWithCache cache cacheKey ttl now None).2 = cache.
Proof.
  intros Hstale.
  assert (fetchWithCache cache cacheKey ttl now (Some data)
          = (Some data, <[cacheKey := Cached.mk data now]> cache)) as Hcall.
  { unfold fetchWithCache. destruct (cache !! cacheKey) as [cached|] eqn:Hc; [|done].
    specialize (Hstale cached eq_refl).
    destruct (Z.ltb_spec (now - Cached.timestamp cached) ttl); [lia|done]. }
  rewrite Hcall. cbn [fst snd]. split; [reflexivity|]. split; [|split].
  - intros now' fetched' Hfresh. unfold fetchWithCache.
    rewrite lookup_insert_eq. cbn [Cached.timestamp Cached.data].
    destruct (Z.ltb_spec (now' - now) ttl); [done|lia].
  - intros other fetched Hne. unfold fetchWithCache.
    destruct (cache !! cacheKey) as [cached|];
      [destruct (_ <? _); [done|]|]; destruct fetched; cbn [snd];
      by rewrite ?lookup_insert_ne.
  - unfold fetchWithCache.
    destruct (cache !! cacheKey) as [cached|]; [by destruct (_ <? _)|done].
Qed.

Lemma fetchWithCache_round_trip_witness :
  (fetchWithCache ({[ "fixtures" := Cached.mk 1 0 ]} : gmap string (Cached.t Z))
     "fixtures" 300 1000 (Some 2)).1 = Some 2 ∧
  (∀ now' fetched',
     now' - 1000 < 300 ->
     fetchWithCache (fetchWithCache ({[ "fixtures" := Cached.mk 1 0 ]}
                                       : gmap string (Cached.t Z))
                       "fixtures" 300 1000 (Some 2)).2
                    "fixtures" 300 now' fetched'
     = (Some 2, (fetchWithCache ({[ "fixtures" := Cached.mk 1 0 ]}
                                   : gmap string (Cached.t Z))
                   "fixtures" 300 1000 (Some 2)).2)) ∧
  (∀ other fetched,
     other <> "fixtures" ->
     (fetchWithCache ({[ "fixtures" := Cached.mk 1 0 ]} : gmap string (Cached.t Z))
        "fixtures" 300 1000 fetched).2 !! other
     = ({[ "fixtures" := Cached.mk 1 0 ]} : gmap string (Cached.t Z)) !! other) ∧
  (fetchWithCache ({[ "fixtures" := Cached.mk 1 0 ]} : gmap string (Cached.t Z))
     "fixtures" 300 1000 None).2
  = {[ "fixtures" := Cached.mk 1 0 ]}.
Proof.
  apply (fetchWithCache_round_trip
           ({[ "fixtures" := Cached.mk 1 0 ]} : gmap string (Cached.t Z))
           "fixtures" 300 1000 2).
  intros cached [_ <-]%lookup_singleton_Some. cbn. lia.
Defined.

(** ** getCurrentGameweek *)



(** ** The simulation server: triggerAutoSubs *)

Lemma isValidSub_true sv starting11 bench subs playerOut bpPlayer :
  isValidSub sv starting11 bench subs playerOut bpPlayer = Ok true ->
  ∃ playerIn, bpPlayer = Some playerIn ∧
    if (Player.element_type playerOut =? 1) || (Player.element_type playerIn =? 1)
    then Player.element_type playerOut = 1 ∧ Player.element_type playerIn = 1
    else withinRules (bump (getCurrentFormation sv starting11 bench subs)
                           (Player.element_type playerIn)) = true.
Proof.
  unfold isValidSub. destruct bpPlayer as [playerIn|]; [|discriminate].
  intros Hv. exists playerIn. split; [reflexivity|].
  destruct (_ || _).
  - injection Hv as Hv. apply andb_true_iff in Hv as [H1 H2].
    by apply Z.eqb_eq in H1, H2.
  - by injection Hv.
Qed.

Lemma findBenchPlayer_Some sv starting11 bench subs used player candidates bp :
  findBenchPlayer sv starting11 bench subs used player candidates = Ok (Some bp) ->
  In bp candidates ∧ (Pick.element bp ∉ used) ∧
  (∃ bpStats, livePlayerStats sv !! Pick.element bp = Some bpStats ∧
              Stats.minutes bpStats <> 0) ∧
  isValidSub sv starting11 bench subs player (findPlayer sv (Pick.element bp)) = Ok true.
Proof.
  induction candidates as [|c rest IH]; cbn [findBenchPlayer]; [discriminate|].
  assert (findBenchPlayer sv starting11 bench subs used player rest = Ok (Some bp) ->
          In bp (c :: rest) ∧ (Pick.element bp ∉ used) ∧
          (∃ bpStats, livePlayerStats sv !! Pick.element bp = Some bpStats ∧
                      Stats.minutes bpStats <> 0) ∧
          isValidSub sv starting11 bench subs player (findPlayer sv (Pick.element bp))
            = Ok true) as Hnext.
  { intros H. destruct (IH H) as (? & ? & ? & ?). repeat split; try done. by right. }
  destruct (bool_decide (Pick.element c ∈ used)) eqn:Hused; [exact Hnext|].
  apply bool_decide_eq_false in Hused.
  destruct (livePlayerStats sv !! Pick.element c) as [bpStats|] eqn:Hst; [|exact Hnext].
  destruct (Z.eqb_spec (Stats.minutes bpStats) 0) as [|Hmin]; [exact Hnext|].
  destruct (isValidSub sv starting11 bench subs player (findPlayer sv (Pick.element c)))
    as [[|]|] eqn:Hv; [|exact Hnext|discriminate].
  intros [= <-]. repeat split; try done; [by left | eauto].
Qed.

Lemma triggerStarter_step sv fixture managerId allPicks subs used pick subs' used' :
  triggerStarter sv fixture managerId (firstn 11 allPicks) (skipn 11 allPicks)
    (subs, used) pick = Ok (subs', used') ->
  In pick (firstn 11 allPicks) ->
  (forall i, i ∈ used <-> In i (map AutoSub.element_in subs)) ->
  (subs' = subs ∧ used' = used) ∨
  ∃ sub, subs' = subs ++ [sub] ∧ used' = used ∪ {[AutoSub.element_in sub]} ∧
         serverSub sv fixture allPicks subs sub ∧
         AutoSub.entry sub = managerId ∧ AutoSub.event sub = 22.
Proof.
  intros Hstep Hpick Hused. unfold triggerStarter in Hstep.
  destruct (findPlayer sv (Pick.element pick)) as [player|] eqn:Hpl;
    [|injection Hstep as <- <-; by left].
  destruct (negb _ && negb _) eqn:Hteam; [injection Hstep as <- <-; by left|].
  destruct (existsb _ subs) eqn:Hout; [injection Hstep as <- <-; by left|].
  destruct (livePlayerStats sv !! Pick.element pick) as [stats|] eqn:Hst;
    [|injection Hstep as <- <-; by left].
  destruct (Z.eqb_spec (Stats.minutes stats) 0) as [Hmin|]; cbn [negb] in Hstep;
    [|injection Hstep as <- <-; by left].
  destruct (findBenchPlayer _ _ _ _ _ _ _) as [[bp|]|] eqn:Hfind;
    cbn [mbind result_bind] in Hstep; [|injection Hstep as <- <-; by left|discriminate].
  injection Hstep as <- <-. right.
  apply findBenchPlayer_Some in Hfind as (Hbp & Hfresh & (bpStats & Hbst & Hbmin) & Hvalid).
  apply isValidSub_true in Hvalid as (playerIn & Hin & Hform).
  eexists. split; [reflexivity|]. split; [reflexivity|]. split; [|done].
  exists player, playerIn, stats, bpStats. cbn [AutoSub.element_in AutoSub.element_out].
  split; [exact Hpl|]. split; [exact Hin|].
  split; [by apply in_map|]. split; [by apply in_map|].
  split.
  { apply andb_false_iff in Hteam as [Ht|Ht]; apply negb_false_iff, Z.eqb_eq in Ht; auto. }
  split; [exact Hst|]. split; [exact Hmin|]. split; [exact Hbst|]. split; [exact Hbmin|].
  split; [by rewrite <- Hused|]. split; [|exact Hform].
  intros (s & Hs & Hins)%in_map_iff.
  pose proof (existsb_false _ _ Hout s Hins) as Hne. cbn beta in Hne.
  apply Z.eqb_neq in Hne. done.
Qed.

Lemma forEachM_triggerStarter sv fixture managerId allPicks l : forall subs used subs' used',
  forEachM (triggerStarter sv fixture managerId (firstn 11 allPicks) (skipn 11 allPicks))
           l (subs, used) = Ok (subs', used') ->
  (forall pick, In pick l -> In pick (firstn 11 allPicks)) ->
  (forall i, i ∈ used <-> In i (map AutoSub.element_in subs)) ->
  ∃ new, subs' = subs ++ new ∧
    serverSubs sv fixture allPicks subs new ∧
    Forall (fun sub => AutoSub.entry sub = managerId ∧ AutoSub.event sub = 22) new.
Proof.
  induction l as [|pick l IH]; intros subs used subs' used' Hrun Hl Hused.
  - injection Hrun as <- <-. exists []. rewrite app_nil_r. repeat split. constructor.
  - cbn [forEachM] in Hrun.
    destruct (triggerStarter _ _ _ _ _ (subs, used) pick) as [[subs1 used1]|] eqn:Hstep;
      [|discriminate].
    cbn [mbind result_bind] in Hrun.
    pose proof (triggerStarter_step _ _ _ _ _ _ _ _ _ Hstep (Hl pick (or_introl eq_refl)) Hused)
      as [[-> ->]|(sub & -> & -> & Hsub & Hentry)].
    + eapply IH; eauto. intros p Hp. apply Hl. by right.
    + destruct (IH _ _ _ _ Hrun) as (new & -> & Hnew & Hall).
      * intros p Hp. apply Hl. by right.
      * intros i. rewrite elem_of_union, elem_of_singleton, Hused, map_app, in_app_iff.
        cbn. intuition.
      * exists (sub :: new). rewrite <- app_assoc. split; [reflexivity|].
        split; [by split | by constructor].
Qed.

(** X23. What the simulation server's resolver adds for a manager. Under
    bench boost nothing changes. Otherwise the picks and the chip stay, the
    earlier substitutions stay in front, and every substitution added
    takes out a starter of the fixture with no minutes for a bench player
    who has minutes and was not used before, goalkeeper for goalkeeper
    only, and, for outfield players, with the formation that has played so
    far kept within 3-5 defenders, 2-5 midfielders and 1-3 forwards. *)
Theorem triggerAutoSubsFor_subs sv fixture managerId picks picks' :
  triggerAutoSubsFor sv fixture managerId picks = Ok picks' ->
  ServerPicks.picks picks' = ServerPicks.picks picks ∧
  ServerPicks.active_chip picks' = ServerPicks.active_chip picks ∧
  ∃ new,
    ServerPicks.automatic_subs picks' = ServerPicks.automatic_subs picks ++ new ∧
    (isBenchBoost (ServerPicks.active_chip picks) = true -> new = []) ∧
    serverSubs sv fixture (ServerPicks.picks picks) (ServerPicks.automatic_subs picks) new ∧
    Forall (fun sub => AutoSub.entry sub = managerId ∧ AutoSub.event sub = 22) new.
Proof.
  unfold triggerAutoSubsFor. destruct (isBenchBoost _) eqn:Hbb.
  - intros [= <-]. repeat split. exists []. rewrite app_nil_r. repeat split. constructor.
  - destruct (forEachM _ _ _) as [[subs' used']|] eqn:Hrun; [|discriminate].
    cbn [mbind result_bind]. intros [= <-]. cbn. repeat split.
    destruct (forEachM_triggerStarter _ _ _ _ _ _ _ _ _ Hrun) as (new & -> & Hnew & Hall).
    + auto.
    + intros i. by rewrite elem_of_list_to_set, list_elem_of_In.
    + exists new. repeat split; try done.
Qed.

Lemma triggerAutoSubsFor_subs_witness :
  ServerPicks.picks (ServerPicks.mk (ServerPicks.picks Simulation.roster) None
                       [AutoSub.mk 14 10 1001 22])
    = ServerPicks.picks Simulation.roster ∧
  ServerPicks.active_chip (ServerPicks.mk (ServerPicks.picks Simulation.roster) None
                             [AutoSub.mk 14 10 1001 22])
    = ServerPicks.active_chip Simulation.roster ∧
  ∃ new,
    ServerPicks.automatic_subs (ServerPicks.mk (ServerPicks.picks Simulation.roster) None
                                  [AutoSub.mk 14 10 1001 22])
      = ServerPicks.automatic_subs Simulation.roster ++ new ∧
    (isBenchBoost (ServerPicks.active_chip Simulation.roster) = true -> new = []) ∧
    serverSubs Simulation.server Simulation.fixture12 (ServerPicks.picks Simulation.roster)
      (ServerPicks.automatic_subs Simulation.roster) new ∧
    Forall (fun sub => AutoSub.entry sub = 1001 ∧ AutoSub.event sub = 22) new.
Proof.
  apply (triggerAutoSubsFor_subs Simulation.server Simulation.fixture12 1001
           Simulation.roster).
  vm_compute. reflexivity.
Defined.

(** ** createPlayerDetailsRow: the position groups *)


